(** * REMEDI editors: a shallow embedding of [src/editors.py]

    The development follows the Python module top-down:

    - [Hook]        the closure [edit_output] installed by [apply_direction.__enter__];
    - [Loss]        [editing_loss] with its negative log-likelihood and KL terms;
    - [Random]      [RandomEditor.forward];
    - [Training]    [Editor.fit]: parameter storage, optimiser, early stopping;
    - [Lifecycle]   [apply_direction] as a context manager and [EditedModel];
    - [Linear]      [LinearEditor];
    - [Evaluate]    [Editor.evaluate];
    - [Scripts]     the device expression of the scripts.

    Tensors are nested lists.  Hidden states stay over an abstract element
    type with two uninterpreted operations, so every statement about the hook
    is independent of the arithmetic of the element type.  The loss is
    a function of logits, taken over the real numbers. *)

From Stdlib Require Import ZArith List Lia Reals Lra.
From stdpp Require Import base option list gmap strings pretty.

Local Open Scope Z_scope.

(** ** Python indexing *)

Module Py.

(** [x[i]] on a dimension of size [n]: negative indices count from the end,
    anything outside [-n, n) raises [IndexError]. *)
Definition index (n : nat) (i : Z) : option nat :=
  if (0 <=? i) && (i <? Z.of_nat n) then Some (Z.to_nat i)
  else if (- Z.of_nat n <=? i) && (i <? 0) then Some (Z.to_nat (i + Z.of_nat n))
  else None.

(** One bound of a slice [x[i:j]] on a dimension of size [n]: negative bounds
    are shifted by [n] once, then clamped into [0, n]. *)
Definition slice_bound (n : nat) (i : Z) : nat :=
  let i' := if i <? 0 then i + Z.of_nat n else i in
  Z.to_nat (Z.min (Z.max i' 0) (Z.of_nat n)).

(** Membership of position [p] in the slice [i:j]. *)
Definition in_slice (n : nat) (i j : Z) (p : nat) : bool :=
  (slice_bound n i <=? p)%nat && (p <? slice_bound n j)%nat.

End Py.

(** ** The direction hook *)

Module Hook.

Section EditOutput.

(** Element type of hidden states with its addition and multiplication. *)
Context {F : Type} (fadd fmul : F -> F -> F).
(** Whatever else the hooked layer returns besides the hidden states. *)
Context {Rest : Type}.

(** A rank-3 tensor [(batch, sequence, hidden)] with its shape. *)
Record Tensor3 := mkTensor3 {
  dimB : nat;
  dimT : nat;
  dimH : nat;
  data : list (list (list F));
}.

Definition wf (t : Tensor3) : Prop :=
  length (data t) = dimB t /\
  Forall (fun row => length row = dimT t /\
                     Forall (fun v => length v = dimH t) row) (data t).

(** Broadcasting of a rank-1 operand against a trailing dimension [h]. *)
Definition broadcast (h : nat) (off : list F) : option (list F) :=
  if (length off =? h)%nat then Some off
  else match off with
       | [x] => Some (replicate h x)
       | _ => None
       end.

(** [alpha * directions[bi]] *)
Definition scale (alpha : F) (d : list F) : list F := map (fmul alpha) d.

(** The positions of [row] inside the slice [i:j] get [off] added, the
    others keep their vector. *)
Definition edited_row (n : nat) (i j : Z) (off : list F)
    (row : list (list F)) : list (list F) :=
  imap (fun p v => if Py.in_slice n i j p then zip_with fadd v off else v) row.

(** [row[i:j] = row[i:j] + off] on one batch row. *)
Definition add_slice (n h : nat) (i j : Z) (off : list F)
    (row : list (list F)) : option (list (list F)) :=
  off' ← broadcast h off;
  Some (edited_row n i j off' row).

(** The [for bi, (i, j) in enumerate(token_ranges.tolist())] loop. *)
Fixpoint edit_rows (alpha : F) (directions : list (list F)) (n h : nat)
    (bi : nat) (token_ranges : list (Z * Z))
    (rows : list (list (list F))) : option (list (list (list F))) :=
  match token_ranges with
  | [] => Some rows
  | (i, j) :: rest =>
      row ← rows !! bi;
      d ← directions !! bi;
      row' ← add_slice n h i j (scale alpha d) row;
      edit_rows alpha directions n h (S bi) rest (<[bi := row']> rows)
  end.

(** [edit_output]; [None] stands for a raised exception. *)
Definition edit_output (alpha : F) (directions : list (list F))
    (token_ranges : list (Z * Z))
    (output : Tensor3 * Rest) : option (Tensor3 * Rest) :=
  let t := output.1 in
  if (dimT t =? 1)%nat then Some output
  else
    rows ← edit_rows alpha directions (dimT t) (dimH t) 0 token_ranges (data t);
    Some (mkTensor3 (dimB t) (dimT t) (dimH t) rows, output.2).



End EditOutput.

Arguments Tensor3 : clear implicits.

(** A small integer-valued instance: two prompts of three tokens, hidden
    size two; the first decode step of the same batch has one token. *)
Module Demo.

Definition prompt_out : Tensor3 Z :=
  mkTensor3 2 3 2 [[[1; 2]; [3; 4]; [5; 6]]; [[10; 20]; [30; 40]; [50; 60]]].
Definition decode_out : Tensor3 Z :=
  mkTensor3 2 1 2 [[[7; 8]]; [[70; 80]]].
Definition directions : list (list Z) := [[1; 1]; [2; 3]].
Definition token_ranges : list (Z * Z) := [(0, 2); (1, 3)].
Definition alpha : Z := 2.
Definition run (t : Tensor3 Z) : option (Tensor3 Z * unit) :=
  edit_output Z.add Z.mul alpha directions token_ranges (t, tt).

End Demo.

End Hook.

(** ** The editing loss *)

Module Loss.

Local Open Scope R_scope.

Definition rsum (xs : list R) : R := fold_right Rplus 0 xs.

(** [torch.log_softmax(x, dim=-1)] on one vector of logits, and the
    distribution it is the logarithm of. *)
Definition log_softmax (x : list R) : list R :=
  let s := rsum (map exp x) in map (fun v => v - ln s) x.
Definition softmax (x : list R) : list R :=
  let s := rsum (map exp x) in map (fun v => exp v / s) x.

(** The same on a [(batch, sequence, vocabulary)] tensor of logits. *)
Definition log_softmax3 (logits : list (list (list R))) : list (list (list R)) :=
  map (map log_softmax) logits.

(** [x[bi, -1]]: the vector at the last sequence position of row [bi]. *)
Definition last_position {A : Type} (x : list (list A)) (bi : nat) : option A :=
  row ← x !! bi;
  pos ← Py.index (length row) (-1);
  row !! pos.

(** [x[bi, -1, mti]] *)
Definition at_last (x : list (list (list R))) (bi : nat) (mti : Z) : option R :=
  vec ← last_position x bi;
  k ← Py.index (length vec) mti;
  vec !! k.

(** [x[torch.arange(batch_size), -1]] *)
Definition last_positions (x : list (list (list R))) (batch_size : nat)
    : option (list (list R)) :=
  mapM (last_position x) (seq 0 batch_size).

(** [nn.KLDivLoss]: the reductions that return a scalar, and [log_target]. *)
Inductive Reduction := Sum | Mean | BatchMean.
Record KLDivLoss := mkKLDivLoss { reduction : Reduction; log_target : bool }.

(** The pointwise term of [F.kl_div]; with a plain target it is
    [xlogy(t, t) - t * x], and [ln 0 = 0] makes [t * ln t] vanish at [0] as
    [xlogy] does. *)
Definition kl_pointwise (log_target : bool) (x t : R) : R :=
  if log_target then exp t * (t - x) else t * ln t - t * x.

(** [kl(input, target)] on two [(batch, vocabulary)] tensors of one shape. *)
Definition kl_forward (kl : KLDivLoss) (input target : list (list R)) : R :=
  let total :=
    rsum (zip_with (fun xs ts => rsum (zip_with (kl_pointwise (log_target kl)) xs ts))
                   input target) in
  match reduction kl with
  | Sum => total
  | Mean => total / INR (length (concat input))
  | BatchMean => total / INR (length input)
  end.

(** The loop adding up [-logps_edit[bi, -1, mti]] over
    [enumerate(mediated_token_ids.tolist())]. *)
Fixpoint nll_loop (logps_edit : list (list (list R))) (bi : nat)
    (mediated_token_ids : list Z) (loss : R) : option R :=
  match mediated_token_ids with
  | [] => Some loss
  | mti :: rest =>
      logp_mediated ← at_last logps_edit bi mti;
      nll_loop logps_edit (S bi) rest (loss + - logp_mediated)
  end.

(** [editing_loss].  The two forward passes are taken by their results:
    [logits_orig] is the logits of [editor.mt.model] on the tokenized prompts and [logits_edit] is
    the logits of the same model run under the editor's hook.  [None] is a
    raised exception. *)
Definition editing_loss (lam : R) (kl : option KLDivLoss)
    (logits_orig logits_edit : list (list (list R)))
    (mediated_token_ids : list Z) : option R :=
  let logps_orig :=
    match kl with
    | Some _ => Some (log_softmax3 logits_orig)
    | None => None
    end in
  let logps_edit := log_softmax3 logits_edit in
  loss ← nll_loop logps_edit 0 mediated_token_ids 0;
  let batch_size := length mediated_token_ids in
  let loss := loss / INR batch_size in
  match kl with
  | None => Some loss
  | Some kl =>
      logps_orig ← logps_orig;
      logps_edit ← last_positions logps_edit batch_size;
      logps_orig ← last_positions logps_orig batch_size;
      Some (loss + lam * kl_forward kl logps_edit logps_orig)
  end.

(** The regulariser as [Editor.fit] builds it:
    [nn.KLDivLoss(reduction="batchmean", log_target=True)]. *)
Definition fit_kl : KLDivLoss := mkKLDivLoss BatchMean true.

(** *** Reference notions the loss is compared with *)

Definition mean (xs : list R) : R := rsum xs / INR (length xs).

(** Probability the model puts on token [mti] after the last position of
    row [bi]. *)
Definition next_token_prob (logits : list (list (list R))) (bi : nat) (mti : Z)
    : option R :=
  vec ← last_position logits bi;
  k ← Py.index (length vec) mti;
  softmax vec !! k.

(** The next-token distribution of row [bi]. *)
Definition next_token_dist (logits : list (list (list R))) (bi : nat)
    : option (list R) :=
  softmax <$> last_position logits bi.

(** Kullback-Leibler divergence [KL(P || Q) = sum_v P v * (ln (P v) - ln (Q v))]. *)
Definition KL (P Q : list R) : R :=
  rsum (zip_with (fun p q => p * (ln p - ln q)) P Q).

(** A one-sample batch over a two-token vocabulary: the original model is
    undecided, the edited one puts 3/4 on token 1. *)
Module Demo.

Definition logits_orig : list (list (list R)) := [[[0; 0]]].
Definition logits_edit : list (list (list R)) := [[[0; ln 3]]].
Definition mediated_token_ids : list Z := [1%Z].
Definition P0 : list R := softmax [0; 0].
Definition Q0 : list R := softmax [0; ln 3].
(** Probability of the mediated token under the edited model. *)
Definition prob0 : R := exp (ln 3) / rsum (map exp [0; ln 3]).

End Demo.

End Loss.

(** ** RandomEditor *)

Module Random.

Section Forward.

(** Entries of a direction, and the state of the random generator. *)
Context {F G : Type}.
(** [torch.distributions.MultivariateNormal(mean, covariance)]: the argument
    validation of its constructor, and [distribution.sample((n,))], a single
    batched draw of [n] rows that advances the generator.  The library
    produces all rows in one call, so the number of rows is an argument of the
    sampler and a row may depend on it. *)
Context (mvn_valid : list F -> list (list F) -> bool).
Context (mvn_sample : list F -> list (list F) -> nat -> G -> list (list F) * G).

(** The two buffers of a [RandomEditor]. *)
Record RandomEditor := mkRandomEditor {
  mean : list F;
  covariance : list (list F);
}.

(** [RandomEditor.forward]; [attribute] is read through [len] only. *)
Definition forward {A : Type} (self : RandomEditor) (attribute : list A) (g : G)
    : option (list (list F) * G) :=
  if mvn_valid (mean self) (covariance self)
  then Some (mvn_sample (mean self) (covariance self) (length attribute) g)
  else None.

End Forward.

Arguments RandomEditor : clear implicits.

(** An integer stand-in for the sampler: the generator is a counter, and row
    [k] of a draw of [n] rows shifts the mean by the counter, [n] and [k]. *)
Module Demo.

Definition valid (mean : list Z) (covariance : list (list Z)) : bool :=
  (length covariance =? length mean)%nat.
Definition sample (mean : list Z) (covariance : list (list Z)) (n : nat) (g : Z)
    : list (list Z) * Z :=
  (map (fun k => map (Z.add (g + Z.of_nat n + Z.of_nat k)) mean) (seq 0 n),
   g + Z.of_nat n).
Definition editor : RandomEditor Z := mkRandomEditor [10; 20] [[1; 0]; [0; 1]].
Definition attribute_a : list (list Z) := [[1; 2; 3]; [4; 5; 6]].
Definition attribute_c : list (list Z) := [[7; 7; 7]].

End Demo.

End Random.

(** ** Training *)

Module Training.

(** *** What the loop takes from PyTorch

    Parameters live in storages addressed by [positive]s; a module maps the
    names of its parameters to their storages.  Everything numerical is kept
    behind an interface. *)
Class Torch (Tensor Batch Loss OptState : Type) := {
  (** [editing_loss(editor=self, batch=batch, kl=kl, lam=lam)] as a function of
      the mode of the editor, of the mode of the language model, and of
      the stored parameter values; [None] is a raised exception. *)
  editing_loss : bool -> bool -> gmap positive Tensor -> Batch -> option Loss;
  (** The gradient of that loss with respect to one storage, when the loss
      depends on it. *)
  grad_of : gmap positive Tensor -> Batch -> positive -> option Tensor;
  (** Accumulation into a [.grad] field that may still be unset. *)
  accumulate : option Tensor -> Tensor -> Tensor;
  (** [optim.AdamW(..., lr=lr)] and its update of one parameter from its gradient. *)
  adamw_new : Loss -> OptState;
  adamw_update : OptState -> positive -> Tensor -> Tensor -> Tensor * OptState;
  (** Python floats ([Loss] is their type; the learning rate is one too):
      [0.0], [+] and [/ n] for a nonzero [n]. *)
  loss_zero : Loss;
  loss_add : Loss -> Loss -> Loss;
  loss_div : Loss -> nat -> Loss;
}.

(** The stopper [Editor.fit] drives: constructed from [patience], called
    on each validation loss, asked whether the last call improved. *)
Class Stopping (Stopper Loss : Type) := {
  stopper_new : Z -> Stopper;
  stopper_call : Stopper -> Loss -> bool * Stopper;
  stopper_improved : Stopper -> bool;
}.

(** *** [training_utils.EarlyStopping] *)

Section EarlyStopping.

Context {Loss : Type} (loss_ltb : Loss -> Loss -> bool).

(** Modelled from the spec: the class [EarlyStopping] of
    [src/utils/training_utils.py], of which [editors.py] only has the calls.
    A patience counter resets whenever the validation loss strictly improves on
    the best one seen; training halts when patience is exhausted, that is after
    [patience] consecutive calls without improvement.  [best] starts at
    infinity, rendered as [None]. *)
Record EarlyStopping := mkEarlyStopping {
  patience : Z;
  best : option Loss;
  num_bad : Z;
  improved : bool;
}.

Definition EarlyStopping_new (patience : Z) : EarlyStopping :=
  mkEarlyStopping patience None 0 false.

Definition EarlyStopping_call (self : EarlyStopping) (value : Loss)
    : bool * EarlyStopping :=
  let better :=
    match best self with
    | None => true
    | Some b => loss_ltb value b
    end in
  let self' :=
    if better then mkEarlyStopping (patience self) (Some value) 0 true
    else mkEarlyStopping (patience self) (best self) (num_bad self + 1) false in
  (patience self' <=? num_bad self', self').

#[export] Instance EarlyStopping_Stopping : Stopping EarlyStopping Loss := {
  stopper_new := EarlyStopping_new;
  stopper_call := EarlyStopping_call;
  stopper_improved := improved;
}.

End EarlyStopping.

Arguments EarlyStopping : clear implicits.

(** *** [Editor.fit] *)

(** What the run does, in order: a loss evaluated on a training or on a
    validation batch, [loss.backward()], [optimizer.step()]. *)
Inductive event :=
  | Forward (epoch : nat) (train : bool)
  | Backward (epoch : nat)
  | Step (epoch : nat).

Section Fit.

Context {Tensor Batch Loss OptState Stopper : Type}.
Context `{!Torch Tensor Batch Loss OptState} `{!Stopping Stopper Loss}.

(** The mutable world of the run. *)
Record state := mkState {
  heap : gmap positive Tensor;          (* storages of all parameters *)
  grads : gmap positive Tensor;         (* their [.grad], when set *)
  requires_grad : gmap positive bool;   (* their [requires_grad] flag *)
  training : bool;                      (* mode of the editor *)
  model_training : bool;                (* mode of [self.mt.model] *)
  optimizer : OptState;
  log : list event;
}.

Definition set_heap (h : gmap positive Tensor) (st : state) : state :=
  mkState h (grads st) (requires_grad st) (training st) (model_training st)
          (optimizer st) (log st).
Definition set_grads (g : gmap positive Tensor) (st : state) : state :=
  mkState (heap st) g (requires_grad st) (training st) (model_training st)
          (optimizer st) (log st).
Definition set_requires_grad (r : gmap positive bool) (st : state) : state :=
  mkState (heap st) (grads st) r (training st) (model_training st)
          (optimizer st) (log st).
Definition set_training (b : bool) (st : state) : state :=
  mkState (heap st) (grads st) (requires_grad st) b (model_training st)
          (optimizer st) (log st).
Definition set_model_training (b : bool) (st : state) : state :=
  mkState (heap st) (grads st) (requires_grad st) (training st) b
          (optimizer st) (log st).
Definition set_optimizer (o : OptState) (st : state) : state :=
  mkState (heap st) (grads st) (requires_grad st) (training st) (model_training st)
          o (log st).
Definition emit (e : event) (st : state) : state :=
  mkState (heap st) (grads st) (requires_grad st) (training st) (model_training st)
          (optimizer st) (log st ++ [e]).

(** [self.state_dict()]: name to tensor, each tensor on the storage of the
    parameter it was taken from (PyTorch detaches, it does not copy). *)
Definition state_dict (parameters : gmap string positive) : gmap string positive :=
  parameters.

(** [param.copy_(input_param)] for one entry of [load_state_dict]. *)
Definition load_entry (sd : gmap string positive) (entry : string * positive)
    (h : option (gmap positive Tensor)) : option (gmap positive Tensor) :=
  h ← h;
  src ← sd !! entry.1;
  v ← h !! src;
  Some (<[entry.2 := v]> h).

(** [self.load_state_dict(sd)], strict: the keys have to be those of the
    module. *)
Definition load_state_dict (parameters sd : gmap string positive)
    (st : state) : option state :=
  if decide (dom sd = dom parameters) then
    h ← foldr (load_entry sd) (Some (heap st)) (map_to_list parameters);
    Some (set_heap h st)
  else None.

(** [for parameter in self.mt.model.parameters(): parameter.requires_grad_(True)] *)
Definition require_grads (model_parameters : list positive) (st : state) : state :=
  set_requires_grad
    (foldr (fun l r => <[l := true]> r) (requires_grad st) model_parameters) st.

(** [optimizer.zero_grad()] *)
Definition zero_grad (opt_parameters : list positive) (st : state) : state :=
  set_grads (foldr delete (grads st) opt_parameters) st.

(** [loss.backward()]: every storage that requires a gradient and that the
    loss depends on gets one accumulated. *)
Definition backward (epoch : nat) (batch : Batch) (st : state) : state :=
  let fresh :=
    map_imap (fun l (r : bool) => if r then grad_of (heap st) batch l else None)
             (requires_grad st) in
  let acc (g old : option Tensor) : option Tensor :=
    match g with
    | Some g => Some (accumulate old g)
    | None => old
    end in
  emit (Backward epoch) (set_grads (merge acc fresh (grads st)) st).

(** The update of one parameter of the optimiser; one without a gradient is
    skipped. *)
Definition step_parameter (st : state) (l : positive) : state :=
  match heap st !! l, grads st !! l with
  | Some v, Some g =>
      let '(v', o') := adamw_update (optimizer st) l v g in
      set_optimizer o' (set_heap (<[l := v']> (heap st)) st)
  | _, _ => st
  end.

(** [optimizer.step()] *)
Definition optimizer_step (epoch : nat) (opt_parameters : list positive)
    (st : state) : state :=
  emit (Step epoch) (foldl step_parameter st opt_parameters).

(** [x /= n] on a Python float: [ZeroDivisionError] when [n] is zero. *)
Definition py_div (x : Loss) (n : nat) : option Loss :=
  if (n =? 0)%nat then None else Some (loss_div x n).

(** [for batch in train_progress_bar: ...] *)
Fixpoint train_batches (epoch : nat) (opt_parameters : list positive)
    (batches : list Batch) (train_loss : Loss) (st : state) : option (Loss * state) :=
  match batches with
  | [] => Some (train_loss, st)
  | batch :: rest =>
      let st := zero_grad opt_parameters st in
      loss ← editing_loss (training st) (model_training st) (heap st) batch;
      let st := emit (Forward epoch true) st in
      let st :=
        if (0 <? epoch)%nat
        then optimizer_step epoch opt_parameters (backward epoch batch st)
        else st in
      train_batches epoch opt_parameters rest (loss_add train_loss loss) st
  end.

(** [for batch in val_progress_bar: ...] *)
Fixpoint val_batches (epoch : nat) (batches : list Batch) (val_loss : Loss)
    (st : state) : option (Loss * state) :=
  match batches with
  | [] => Some (val_loss, st)
  | batch :: rest =>
      loss ← editing_loss (training st) (model_training st) (heap st) batch;
      val_batches epoch rest (loss_add val_loss loss) (emit (Forward epoch false) st)
  end.

(** The body of the epoch loop up to the call of the stopper: returns the
    validation loss of the epoch. *)
Definition run_epoch (opt_parameters : list positive)
    (train_loader val_loader : list Batch) (epoch : nat) (st : state)
    : option (Loss * state) :=
  let st := set_training true st in
  '(train_loss, st) ← train_batches epoch opt_parameters train_loader loss_zero st;
  _ ← py_div train_loss (length train_loader);
  let st := set_training false st in
  '(val_loss, st) ← val_batches epoch val_loader loss_zero st;
  val_loss ← py_div val_loss (length val_loader);
  Some (val_loss, st).

(** [for epoch in range(max_epochs + 1): ...] with its [break]; the loop
    carries the state, the stopper and the variable [best]. *)
Fixpoint epochs (parameters : gmap string positive) (opt_parameters : list positive)
    (train_loader val_loader : list Batch) (range : list nat)
    (st : state) (stopper : Stopper) (best : gmap string positive)
    : option (state * Stopper * gmap string positive) :=
  match range with
  | [] => Some (st, stopper, best)
  | epoch :: rest =>
      '(val_loss, st) ← run_epoch opt_parameters train_loader val_loader epoch st;
      let '(stop, stopper) := stopper_call stopper val_loss in
      if stop then Some (st, stopper, best)
      else if stopper_improved stopper
      then epochs parameters opt_parameters train_loader val_loader rest
                  st stopper (state_dict parameters)
      else epochs parameters opt_parameters train_loader val_loader rest
                  st stopper best
  end.

(** [range(max_epochs + 1)] *)
Definition epoch_range (max_epochs : Z) : list nat :=
  seq 0 (Z.to_nat (max_epochs + 1)).

(** [self.parameters()], the argument of the optimiser. *)
Definition parameters_of (parameters : gmap string positive) : list positive :=
  (map_to_list parameters).*2.

(** [Editor.fit] on the two loaders of the split data set.  [parameters] are
    the editor's own, [model_parameters] those of [self.mt.model]; moving
    modules to [device] changes no value and is left out. *)
Definition fit (parameters : gmap string positive) (model_parameters : list positive)
    (train_loader val_loader : list Batch)
    (max_epochs : Z) (lr : Loss) (patience : Z) (st : state) : option state :=
  let st := set_model_training false st in
  let st := require_grads model_parameters st in
  let opt_parameters := parameters_of parameters in
  let st := set_optimizer (adamw_new lr) st in
  let stopper := stopper_new patience in
  let best := state_dict parameters in
  '(st, _, best) ← epochs parameters opt_parameters train_loader val_loader
                          (epoch_range max_epochs) st stopper best;
  load_state_dict parameters best st.

(** *** Reference notions the run is compared with *)

(** [st'] differs from [st] at most in the storages [ls], in gradients, in
    the mode of the editor, in the optimiser and in the log. *)
Definition unchanged_outside (ls : list positive) (st st' : state) : Prop :=
  (forall l, l ∉ ls -> heap st' !! l = heap st !! l) /\
  requires_grad st' = requires_grad st /\
  model_training st' = model_training st.

(** Storages are never freed. *)
Definition heap_grows (st st' : state) : Prop :=
  forall l, is_Some (heap st !! l) -> is_Some (heap st' !! l).

(** The state [fit] starts its loop in. *)
Definition fit_init (model_parameters : list positive) (lr : Loss) (st : state) : state :=
  set_optimizer (adamw_new lr)
    (require_grads model_parameters (set_model_training false st)).

(** What one full epoch appends to the log: on every training batch a loss
    alone at epoch 0, a loss, a backward pass and an optimiser step from
    epoch 1 on; then a loss on every validation batch. *)
Definition epoch_trace (train_loader val_loader : list Batch) (epoch : nat)
    : list event :=
  match epoch with
  | O => map (fun _ => Forward epoch true) train_loader
  | S _ => flat_map (fun _ => [Forward epoch true; Backward epoch; Step epoch])
                    train_loader
  end ++ map (fun _ => Forward epoch false) val_loader.

End Fit.

Arguments state : clear implicits.

(** A run with one scalar editor parameter and one scalar parameter of the
    language model.  Losses are in tenths: the validation loss as a function of
    the editor parameter goes 5.0, 3.0, 2.0, 2.5, 3.0 and stays at 4.0 from
    there; each optimiser step moves the parameter by the gradient, which
    is 1. *)
Module Demo.

Definition loss_table : list Z := [50; 30; 20; 25; 30].

#[export] Instance demo_torch : Torch Z unit Z nat := {
  editing_loss := fun _ _ h _ => w ← h !! 1%positive; Some (nth (Z.to_nat w) loss_table 40);
  grad_of := fun _ _ _ => Some 1;
  accumulate := fun old g => default 0 old + g;
  adamw_new := fun _ => O;
  adamw_update := fun o _ v g => (v + g, S o);
  loss_zero := 0;
  loss_add := Z.add;
  loss_div := fun x n => x / Z.of_nat n;
}.

Definition parameters : gmap string positive := {[ "linear.weight"%string := 1%positive ]}.
Definition model_parameters : list positive := [2%positive].
Definition train_loader : list unit := [tt].
Definition val_loader : list unit := [tt].

(** Before [fit]: the editor parameter is 0, the parameter of the language
    model is 7 and was frozen by the caller. *)
Definition st0 : state Z nat :=
  mkState (<[1%positive := 0]> (<[2%positive := 7]> ∅)) ∅
          (<[1%positive := true]> (<[2%positive := false]> ∅))
          false true O [].

Definition run (max_epochs patience : Z) : option (state Z nat) :=
  fit (Stopper := EarlyStopping Z) (Stopping0 := EarlyStopping_Stopping Z.ltb)
      parameters model_parameters train_loader val_loader max_epochs 1 patience st0.

(** The epoch loop of that run alone, which still has the stopper. *)
Definition loop (max_epochs patience : Z)
    : option (state Z nat * EarlyStopping Z * gmap string positive) :=
  epochs (Stopping0 := EarlyStopping_Stopping Z.ltb)
         parameters (parameters_of parameters) train_loader val_loader
         (epoch_range max_epochs) (fit_init model_parameters 1 st0)
         (EarlyStopping_new patience) (state_dict parameters).

(** The state [run 10 2] ends in. *)
Definition final : state Z nat :=
  mkState (<[1%positive := 4]> (<[2%positive := 7]> ∅))
          (<[1%positive := 1]> (<[2%positive := 4]> ∅))
          (<[1%positive := true]> (<[2%positive := true]> ∅))
          false false 4%nat
          (flat_map (epoch_trace train_loader val_loader) (seq 0 5)).

End Demo.

End Training.

(** ** The life of a hook: [apply_direction] and [EditedModel] *)

Module Lifecycle.

(** Values of keyword arguments as the callers of this file pass them. *)
Inductive kwarg := KInt (n : Z) | KBool (b : bool) | KNone.

Definition DEFAULT_N_GENERATE : Z := 10.

(** [kwargs.setdefault(key, value)] *)
Definition setdefault (key : string) (value : kwarg) (kwargs : gmap string kwarg)
    : gmap string kwarg :=
  match kwargs !! key with
  | Some _ => kwargs
  | None => <[key := value]> kwargs
  end.

Section Run.

(** Batch values (tensors, lists of strings), directions, step sizes,
    tokenized inputs and model outputs. *)
Context {V D A Inputs Outputs : Type}.

(** What a [nethook.Trace] made by [apply_direction.__enter__] holds: the
    path of the hooked layer and what the closure [edit_output] captured. *)
Record Trace := mkTrace {
  trace_layer : string;
  trace_directions : D;
  trace_token_ranges : V;
  trace_alpha : A;
}.

(** The language model as far as hooks go: the forward hooks installed on
    it by handle, and the next free handle. *)
Record Model := mkModel {
  hooks : gmap nat Trace;
  next_handle : nat;
}.

(** Handles in use are below the next free one. *)
Definition handles_fresh (m : Model) : Prop :=
  forall h, is_Some (hooks m !! h) -> (h < next_handle m)%nat.

(** [model_utils.determine_layer_paths(model, layers=...)], not in this file:
    [None] when it raises. *)
Context (determine_layer_paths : list Z -> option (list string)).
(** Whether the model has a submodule at a path; [nethook.Trace] raises
    [LookupError] when it has none. *)
Context (has_module : string -> bool).

(** The fields of an [apply_direction] object. *)
Record apply_direction := mkApplyDirection {
  layer : Z;
  directions : D;
  token_ranges : V;
  alpha : A;
  _trace : option nat;
}.

(** [apply_direction.__enter__]: the manager and the model afterwards, or
    [None] for an exception, raised before anything is changed. *)
Definition enter (self : apply_direction) (m : Model)
    : option (apply_direction * Model) :=
  paths ← determine_layer_paths [layer self];
  match paths with
  | [layer_path] =>
      if has_module layer_path then
        let trace := mkTrace layer_path (directions self) (token_ranges self)
                             (alpha self) in
        Some (mkApplyDirection (layer self) (directions self) (token_ranges self)
                               (alpha self) (Some (next_handle m)),
              mkModel (<[next_handle m := trace]> (hooks m)) (S (next_handle m)))
      else None
  | _ => None
  end.

(** [apply_direction.__exit__]: [None] is the failed assertion. *)
Definition exit (self : apply_direction) (m : Model)
    : option (apply_direction * Model) :=
  match _trace self with
  | None => None
  | Some handle =>
      Some (mkApplyDirection (layer self) (directions self) (token_ranges self)
                             (alpha self) None,
            mkModel (delete handle (hooks m)) (next_handle m))
  end.

(** [with manager as model: body]: the body sees the model as [__enter__]
    left it; [__exit__] runs whether the body returns or raises, and lets
    an exception of the body through. *)
Definition with_ {R : Type} (manager : apply_direction) (m : Model)
    (body : Model -> option R) : Model * option R :=
  match enter manager m with
  | None => (m, None)
  | Some (manager', m') =>
      let r := body m' in
      match exit manager' m' with
      | Some (_, m'') => (m'', r)
      | None => (m', None)
      end
  end.

(** The editor as [EditedModel] uses it: its layer and its [__call__]. *)
Record Editor := mkEditor {
  editor_layer : Z;
  editor_call : V -> option D;
}.

(** [precompute.has_editor_inputs], [precompute.editor_inputs_from_batch]
    and [precompute.inputs_from_batch], not in this file. *)
Context (has_editor_inputs : gmap string V -> bool).
Context (editor_inputs_from_batch : gmap string V -> list Z -> option (gmap string V)).
Context (inputs_from_batch : V -> option Inputs).
(** [model(inputs, kwargs)] and [model.generate(inputs, kwargs)] under the
    hooks installed at the time of the call. *)
Context (model_forward model_generate :
           gmap nat Trace -> Inputs -> gmap string kwarg -> option Outputs).

(** Everything [_run_edited_model] does before it installs the hook. *)
Definition prepare (editor : Editor) (batch : gmap string V) (inputs : option Inputs)
    : option (V * D * Inputs) :=
  let layer := editor_layer editor in
  let precomputed := batch in
  precomputed ←
    (if has_editor_inputs precomputed then Some precomputed
     else editor_inputs_from_batch batch [layer]);
  entity_ij ← precomputed !! "prompt.token_range.entity"%string;
  hiddens_attr ←
    precomputed !! ("context.hiddens." +:+ pretty layer +:+ ".attribute")%string;
  directions ← editor_call editor hiddens_attr;
  inputs ←
    match inputs with
    | Some inputs => Some inputs
    | None => prompt ← batch !! "prompt"%string; inputs_from_batch prompt
    end;
  Some (entity_ij, directions, inputs).

(** [EditedModel._run_edited_model] *)
Definition _run_edited_model (editor : Editor) (em_alpha : A)
    (batch : gmap string V) (generate : bool) (inputs : option Inputs)
    (kwargs : gmap string kwarg) (m : Model) : Model * option Outputs :=
  match prepare editor batch inputs with
  | None => (m, None)
  | Some (entity_ij, directions, inputs) =>
      with_ (mkApplyDirection (editor_layer editor) directions entity_ij em_alpha None)
            m
            (fun model =>
               if generate then
                 model_generate (hooks model) inputs
                   (setdefault "max_new_tokens" (KInt DEFAULT_N_GENERATE) kwargs)
               else model_forward (hooks model) inputs kwargs)
  end.

(** [EditedModel.forward] and [EditedModel.generate] *)
Definition forward (editor : Editor) (em_alpha : A) (batch : gmap string V)
    (inputs : option Inputs) (kwargs : gmap string kwarg) (m : Model)
    : Model * option Outputs :=
  _run_edited_model editor em_alpha batch false inputs kwargs m.

Definition generate (editor : Editor) (em_alpha : A) (batch : gmap string V)
    (inputs : option Inputs) (kwargs : gmap string kwarg) (m : Model)
    : Model * option Outputs :=
  _run_edited_model editor em_alpha batch true inputs kwargs m.

End Run.

Arguments Trace : clear implicits.
Arguments Model : clear implicits.
Arguments apply_direction : clear implicits.
Arguments Editor : clear implicits.

(** A stand-in model with four layers whose output is the number of hooks it
    runs under; batch values are lists of integers. *)
Module Demo.

Definition determine_layer_paths (layers : list Z) : option (list string) :=
  mapM (fun l => if (0 <=? l) && (l <? 4)
                 then Some ("transformer.h." +:+ pretty l)%string else None) layers.
Definition has_module (path : string) : bool := true.
Definition has_editor_inputs (batch : gmap string (list Z)) : bool :=
  bool_decide (is_Some (batch !! "prompt.token_range.entity"%string)).
Definition precompute (batch : gmap string (list Z)) (layers : list Z)
    : option (gmap string (list Z)) := None.
Definition inputs_from_batch (prompt : list Z) : option (list Z) := Some prompt.
Definition model_call (hooks : gmap nat (Trace (list Z) (list (list Z)) Z))
    (inputs : list Z) (kwargs : gmap string kwarg) : option Z :=
  Some (Z.of_nat (size hooks)).

Definition editor : Editor (list Z) (list (list Z)) :=
  mkEditor 2 (fun hiddens => Some [hiddens]).
Definition batch : gmap string (list Z) :=
  <["prompt"%string := [1; 2; 3]]>
    (<["prompt.token_range.entity"%string := [0; 2]]>
       (<["context.hiddens.2.attribute"%string := [5; 6]]> ∅)).
Definition m0 : Model (list Z) (list (list Z)) Z := mkModel ∅ 0.

Definition manager : apply_direction (list Z) (list (list Z)) Z :=
  mkApplyDirection 2 [[5; 6]] [0; 2] 1 None.
Definition manager_in : apply_direction (list Z) (list (list Z)) Z :=
  mkApplyDirection 2 [[5; 6]] [0; 2] 1 (Some 0%nat).
Definition m_in : Model (list Z) (list (list Z)) Z :=
  mkModel (<[0%nat := mkTrace "transformer.h.2"%string [[5; 6]] [0; 2] 1]> ∅) 1.

Definition run (generate : bool) (kwargs : gmap string kwarg)
    : Model (list Z) (list (list Z)) Z * option Z :=
  _run_edited_model determine_layer_paths has_module has_editor_inputs precompute
    inputs_from_batch model_call model_call editor 1 batch generate None kwargs m0.

End Demo.

End Lifecycle.

(** ** LinearEditor *)

Module Linear.

(** [torch.dtype] of a floating point tensor, and [torch.device]. *)
Inductive Dtype := float16 | bfloat16 | float32 | float64.
Inductive Device := cpu | cuda (index : nat).

Definition dtype_eqb (a b : Dtype) : bool :=
  match a, b with
  | float16, float16 | bfloat16, bfloat16 | float32, float32 | float64, float64 => true
  | _, _ => false
  end.

Definition device_eqb (a b : Device) : bool :=
  match a, b with
  | cpu, cpu => true
  | cuda i, cuda j => (i =? j)%nat
  | _, _ => false
  end.

Section Editor.

(** Entries of weights and hidden states with zero, sum and product. *)
Context {F : Type} (fzero : F) (fadd fmul : F -> F -> F).

(** A two-dimensional tensor: dtype, device, shape (rows, columns) and the
    rows themselves.  The shape is kept beside the rows, as a tensor without
    rows still has a number of columns. *)
Record Tensor2 := mkTensor2 {
  dtype : Dtype;
  device : Device;
  shape : nat * nat;
  data : list (list F);
}.

Definition tensor_wf (t : Tensor2) : Prop :=
  length (data t) = (shape t).1 /\
  Forall (fun x => length x = (shape t).2) (data t).

(** An [nn.Linear]: [weight] has [out_features] rows of [in_features]
    entries, [bias] has [out_features] entries; both parameters have the
    dtype and the device of the layer. *)
Record Linear := mkLinear {
  in_features : nat;
  out_features : nat;
  weight : list (list F);
  bias : list F;
  linear_dtype : Dtype;
  linear_device : Device;
}.

(** A layer whose parameters have the shape its sizes announce. *)
Definition linear_wf (l : Linear) : Prop :=
  length (weight l) = out_features l /\ length (bias l) = out_features l.

(** [nn.Linear(in_features, out_features)]: the parameters are created with
    the default dtype, [torch.float32], on the default device, the CPU; the
    initial values are drawn by the library and taken here as two functions
    of the position. *)
Definition new_linear (init_weight : nat -> nat -> F) (init_bias : nat -> F)
    (in_features out_features : nat) : Linear :=
  mkLinear in_features out_features
    (map (fun o => map (init_weight o) (seq 0 in_features)) (seq 0 out_features))
    (map init_bias (seq 0 out_features))
    float32 cpu.

Definition dot (w x : list F) : F :=
  foldl (fun acc wx => fadd acc (fmul wx.1 wx.2)) fzero (zip w x).

(** One row of [x @ weight.T + bias]. *)
Definition linear_row (l : Linear) (x : list F) : list F :=
  zip_with (fun w b => fadd (dot w x) b) (weight l) (bias l).

(** The layer on a batch, [F.linear(input, weight, bias)]: a [RuntimeError]
    when the input has not the dtype of the parameters, is on another device,
    or has not [in_features] columns. *)
Definition linear_forward (l : Linear) (x : Tensor2) : option Tensor2 :=
  if dtype_eqb (dtype x) (linear_dtype l)
     && device_eqb (device x) (linear_device l)
     && ((shape x).2 =? in_features l)%nat
  then Some (mkTensor2 (linear_dtype l) (linear_device l)
               ((shape x).1, out_features l) (map (linear_row l) (data x)))
  else None.

(** [self.linear]: one layer, or two in an [nn.Sequential]. *)
Inductive Net :=
  | Full (linear : Linear)
  | Sequential (linear0 linear1 : Linear).

(** [LinearEditor.__init__] for a model of hidden size [hidden_size]; a
    negative [rank] makes [nn.Linear] raise.  [Editor.__init__] has run
    [self.to(device=..., dtype=torch.float16)] before the layers exist, on a
    module without parameters, so the cast reaches none of them. *)
Definition init (init_weight : nat -> nat -> F) (init_bias : nat -> F)
    (hidden_size : nat) (rank : option Z) : option Net :=
  match rank with
  | None => Some (Full (new_linear init_weight init_bias hidden_size hidden_size))
  | Some rank =>
      if (rank <? 0)%Z then None
      else Some (Sequential
                   (new_linear init_weight init_bias hidden_size (Z.to_nat rank))
                   (new_linear init_weight init_bias (Z.to_nat rank) hidden_size))
  end.

(** [self.to(device)] on the editor, as in [Editor.fit], [Editor.evaluate]
    and [classify.py], for a device that is given: the parameters move,
    their dtype stays. *)
Definition linear_to (d : Device) (l : Linear) : Linear :=
  mkLinear (in_features l) (out_features l) (weight l) (bias l) (linear_dtype l) d.

Definition to (d : Device) (self : Net) : Net :=
  match self with
  | Full linear => Full (linear_to d linear)
  | Sequential linear0 linear1 => Sequential (linear_to d linear0) (linear_to d linear1)
  end.

(** [LinearEditor.__call__] *)
Definition call (self : Net) (attribute : Tensor2) : option Tensor2 :=
  match self with
  | Full linear => linear_forward linear attribute
  | Sequential linear0 linear1 =>
      hidden ← linear_forward linear0 attribute;
      linear_forward linear1 hidden
  end.

(** A layer from [in_] to [out] columns, float32, on device [d]. *)
Definition layer_on (in_ out : nat) (d : Device) (l : Linear) : Prop :=
  linear_wf l /\ in_features l = in_ /\ out_features l = out /\
  linear_dtype l = float32 /\ linear_device l = d.

(** An editor for hidden size [h] whose layers are float32 on device [d]. *)
Definition editor_on (h : nat) (d : Device) (self : Net) : Prop :=
  match self with
  | Full linear => layer_on h h d linear
  | Sequential linear0 linear1 =>
      exists r, layer_on h r d linear0 /\ layer_on r h d linear1
  end.

End Editor.

Arguments Tensor2 : clear implicits.
Arguments Linear : clear implicits.
Arguments Net : clear implicits.

(** An integer editor of hidden size 2 and rank 1. *)
Module Demo.

Definition init_weight (o i : nat) : Z := Z.of_nat (o + i + 1).
Definition init_bias (o : nat) : Z := Z.of_nat o.
Definition editor : Net Z :=
  Sequential (new_linear init_weight init_bias 2 1) (new_linear init_weight init_bias 1 2).
Definition attribute : Tensor2 Z := mkTensor2 float32 (cuda 0) (2, 2)%nat [[1; 2]; [3; 4]].
Definition attribute_fp16 : Tensor2 Z := mkTensor2 float16 (cuda 0) (2, 2)%nat [[1; 2]; [3; 4]].
Definition directions : Tensor2 Z := mkTensor2 float32 (cuda 0) (2, 2)%nat [[5; 11]; [11; 23]].

End Demo.

End Linear.

(** ** Scripts *)

Module Scripts.

(** [args.device or "cuda" if torch.cuda.is_available() else "cpu"], the
    first line on devices of all three scripts: the conditional expression
    binds weakest, so the [or] is its first branch. *)
Definition select_device (device : option string) (cuda_is_available : bool) : string :=
  if cuda_is_available then
    match device with
    | Some d => if String.eqb d "" then "cuda"%string else d
    | None => "cuda"%string
    end
  else "cpu"%string.

End Scripts.

(** ** Editor.evaluate *)

Module Evaluate.

(** Entries of a batch column: strings, or token ids. *)
Inductive Val := VStr (s : string) | VInt (n : Z).

(** Index tensors of two lengths broadcast against each other. *)
Definition broadcast2 {X Y : Type} (xs : list X) (ys : list Y) : option (list (X * Y)) :=
  if (length xs =? length ys)%nat then Some (zip xs ys)
  else match xs, ys with
       | [x], _ => Some (zip (replicate (length ys) x) ys)
       | _, [y] => Some (zip xs (replicate (length xs) y))
       | _, _ => None
       end.

Section Evaluate.

Context {Score Token : Type}.

(** What [generate(..., return_dict_in_generate=True, output_scores=True)]
    returns: per generated step the scores of every row, and the sequences. *)
Record GenerateOutput := mkGenerateOutput {
  scores : list (list (list Score));
  sequences : list (list Token);
}.

(** [EditorEvaluationResult]; the two generation fields hold what the loop
    puts in them, one decoded string. *)
Record EditorEvaluationResult := mkResult {
  sample : gmap string Val;
  before_top_tokens : list string;
  before_top_scores : list Score;
  before_generations : string;
  after_top_tokens : list string;
  after_top_scores : list Score;
  after_generations : string;
  before_target_mediated_score : option Score;
  before_target_unmediated_score : option Score;
  after_target_mediated_score : option Score;
  after_target_unmediated_score : option Score;
}.

(** [dataset_utils.ContextMediationSample.__required_keys__], not in this file. *)
Context (required_keys : list string).
(** The two generations of a batch, tokenization included: the plain model,
    and the model under [apply(self, alpha=alpha)]. *)
Context (generate_before generate_after : gmap string (list Val) -> option GenerateOutput).
(** [scores.topk(k=n_top, dim=-1)]: values and indices. *)
Context (topk : Z -> list (list Score) -> option (list (list Score) * list (list nat))).
(** [tokenizer_utils.batch_convert_ids_to_tokens] and [tokenizer.batch_decode]. *)
Context (batch_convert_ids_to_tokens : list (list nat) -> list (list string)).
Context (batch_decode : list (list Token) -> list string).

(** [{key: batch[key][bi] for key in required_keys}] *)
Definition sample_of (batch : gmap string (list Val)) (bi : nat)
    : option (gmap string Val) :=
  foldr (fun key acc =>
           acc ← acc;
           column ← batch !! key;
           v ← column !! bi;
           Some (<[key := v]> acc))
        (Some ∅) required_keys.

(** [first_token_scores[batch_indices, target_id].tolist()] *)
Definition target_probs (first_token_scores : list (list Score))
    (current_batch_size : nat) (target_id : list Val) : option (list Score) :=
  ids ← mapM (fun v => match v with VInt n => Some n | VStr _ => None end) target_id;
  pairs ← broadcast2 (seq 0 current_batch_size) ids;
  mapM (fun p : nat * Z =>
          row ← first_token_scores !! p.1;
          k ← Py.index (length row) p.2;
          row !! k) pairs.

(** The entries of [batched_results] under one of the prefixes ["before"],
    ["after"]. *)
Record Batched := mkBatched {
  top_scores : list (list Score);
  top_tokens : list (list string);
  generations : list string;
  target_mediated_score : option (list Score);
  target_unmediated_score : option (list Score);
}.

(** One turn of [for key, outputs in (("before", ...), ("after", ...))]. *)
Definition batched_for (n_top : Z) (include_target_probs : bool)
    (batch : gmap string (list Val)) (current_batch_size : nat)
    (outputs : GenerateOutput) : option Batched :=
  first_token_scores ← scores outputs !! 0%nat;
  '(top_scores, top_token_ids) ← topk n_top first_token_scores;
  let top_tokens := batch_convert_ids_to_tokens top_token_ids in
  let generations := batch_decode (sequences outputs) in
  if include_target_probs then
    mediated_id ← batch !! "target_mediated.token_id"%string;
    mediated ← target_probs first_token_scores current_batch_size mediated_id;
    unmediated_id ← batch !! "target_unmediated.token_id"%string;
    unmediated ← target_probs first_token_scores current_batch_size unmediated_id;
    Some (mkBatched top_scores top_tokens generations (Some mediated) (Some unmediated))
  else Some (mkBatched top_scores top_tokens generations None None).

(** [vs[bi]] for an entry of [batched_results] that may be absent. *)
Definition entry_at (vs : option (list Score)) (bi : nat) : option (option Score) :=
  match vs with
  | None => Some None
  | Some vs => v ← vs !! bi; Some (Some v)
  end.

(** [EditorEvaluationResult] built from [{k: vs[bi] for k, vs in batched_results.items()}] *)
Definition result_at (samples : list (gmap string Val)) (before after : Batched)
    (bi : nat) : option EditorEvaluationResult :=
  sample ← samples !! bi;
  bs ← top_scores before !! bi;
  bt ← top_tokens before !! bi;
  bg ← generations before !! bi;
  bm ← entry_at (target_mediated_score before) bi;
  bu ← entry_at (target_unmediated_score before) bi;
  as_ ← top_scores after !! bi;
  at_ ← top_tokens after !! bi;
  ag ← generations after !! bi;
  am ← entry_at (target_mediated_score after) bi;
  au ← entry_at (target_unmediated_score after) bi;
  Some (mkResult sample bt bs bg at_ as_ ag bm bu am au).

(** The body of [for batch in tqdm(loader, ...)]: the results it appends. *)
Definition evaluate_batch (n_top : Z) (include_target_probs : bool)
    (batch : gmap string (list Val)) : option (list EditorEvaluationResult) :=
  prompts ← batch !! "prompt"%string;
  let current_batch_size := length prompts in
  outputs_before ← generate_before batch;
  outputs_after ← generate_after batch;
  samples ← mapM (sample_of batch) (seq 0 current_batch_size);
  before ← batched_for n_top include_target_probs batch current_batch_size outputs_before;
  after ← batched_for n_top include_target_probs batch current_batch_size outputs_after;
  mapM (result_at samples before after) (seq 0 current_batch_size).

(** [Editor.evaluate] on the batches of the loader; [column_names] are those
    of the data set. *)
Definition evaluate (column_names : list string) (n_top : Z)
    (loader : list (gmap string (list Val))) : option (list EditorEvaluationResult) :=
  let include_target_probs := bool_decide ("target_mediated"%string ∈ column_names) in
  results ← mapM (evaluate_batch n_top include_target_probs) loader;
  Some (concat results).

(** Number of samples of a batch. *)
Definition batch_size (batch : gmap string (list Val)) : nat :=
  length (default [] (batch !! "prompt"%string)).

(** Whether a result carries all four target scores, or none. *)
Definition has_targets (r : EditorEvaluationResult) : Prop :=
  is_Some (before_target_mediated_score r) /\
  is_Some (before_target_unmediated_score r) /\
  is_Some (after_target_mediated_score r) /\
  is_Some (after_target_unmediated_score r).
Definition has_no_targets (r : EditorEvaluationResult) : Prop :=
  before_target_mediated_score r = None /\
  before_target_unmediated_score r = None /\
  after_target_mediated_score r = None /\
  after_target_unmediated_score r = None.

End Evaluate.

Arguments GenerateOutput : clear implicits.
Arguments EditorEvaluationResult : clear implicits.
Arguments Batched : clear implicits.

(** One batch of two samples over a vocabulary of three tokens, with integer
    scores; the stand-in for [topk] keeps the leading entries of each row. *)
Module Demo.

Definition required_keys : list string := ["entity"; "prompt"]%string.
Definition generate_before (batch : gmap string (list Val))
    : option (GenerateOutput Z nat) :=
  Some (mkGenerateOutput [[[1; 5; 3]; [2; 0; 9]]] [[7; 8]; [9; 9]]%nat).
Definition generate_after (batch : gmap string (list Val))
    : option (GenerateOutput Z nat) :=
  Some (mkGenerateOutput [[[4; 1; 1]; [0; 0; 6]]] [[7; 1]; [9; 2]]%nat).
Definition leading (k : Z) (rows : list (list Z))
    : option (list (list Z) * list (list nat)) :=
  if (k <? 0)%Z then None
  else Some (map (take (Z.to_nat k)) rows,
             map (fun row => seq 0 (Z.to_nat k `min` length row)) rows).
Definition batch_convert_ids_to_tokens (ids : list (list nat)) : list (list string) :=
  map (map pretty) ids.
Definition batch_decode (sequences : list (list nat)) : list string :=
  map (fun tokens => pretty (length tokens)) sequences.

Definition batch : gmap string (list Val) :=
  <["prompt"%string := [VStr "a"; VStr "b"]]>
    (<["entity"%string := [VStr "x"; VStr "y"]]>
       (<["target_mediated.token_id"%string := [VInt 1; VInt 2]]>
          (<["target_unmediated.token_id"%string := [VInt 0; VInt 0]]> ∅))).
Definition loader : list (gmap string (list Val)) := [batch].
Definition column_names : list string := ["prompt"; "entity"; "target_mediated"]%string.

Definition run (column_names : list string) : option (list (EditorEvaluationResult Z)) :=
  evaluate required_keys generate_before generate_after leading
    batch_convert_ids_to_tokens batch_decode column_names 2 loader.

Definition results : list (EditorEvaluationResult Z) :=
  Eval vm_compute in default [] (run column_names).
Definition first_result : option (EditorEvaluationResult Z) :=
  Eval vm_compute in results !! 0%nat.

End Demo.

End Evaluate.

(** ** Batch keys *)

Module Keys.

(** [f"context.hiddens.{layer}.attribute"] *)
Definition hiddens_key (layer : Z) : string :=
  ("context.hiddens." +:+ pretty layer +:+ ".attribute")%string.

End Keys.

(** ** Gradients *)

Module Gradients.

Import Training.

Section Fit.

Context {Tensor Batch Loss OptState : Type}.
Context `{!Torch Tensor Batch Loss OptState}.

(** The gradient [loss.backward()] computes for a storage, if any. *)
Definition fresh_grad (st : state Tensor OptState) (batch : Batch) (l : positive)
    : option Tensor :=
  requires_grad st !! l ≫= fun r : bool => if r then grad_of (heap st) batch l else None.

(** A gradient once set on [l] is still set. *)
Definition grad_kept (l : positive) (st st' : state Tensor OptState) : Prop :=
  is_Some (grads st !! l) -> is_Some (grads st' !! l).

End Fit.

End Gradients.

(** ** A saved editor *)

(** The run of [Training.Demo] with a third storage, as [torch.load] makes
    one: it holds the value 9 read back for the editor's weight. *)
Module Saved.

Import Training Training.Demo.

Definition sd_file : gmap string positive := {[ "linear.weight"%string := 3%positive ]}.

Definition st_file : state Z nat :=
  mkState (<[1%positive := 0]> (<[2%positive := 7]> (<[3%positive := 9]> ∅))) ∅
          (<[1%positive := true]> (<[2%positive := false]> ∅))
          false true O [].

(** [fit] run once more from where the first run ended. *)
Definition st_again : state Z nat :=
  Eval vm_compute in
    default final
      (fit (Stopper := EarlyStopping Z) (Stopping0 := EarlyStopping_Stopping Z.ltb)
           parameters model_parameters train_loader val_loader 10 1 2 final).

Definition st_loaded : state Z nat :=
  mkState (<[1%positive := 9]> (<[2%positive := 7]> (<[3%positive := 9]> ∅))) ∅
          (<[1%positive := true]> (<[2%positive := false]> ∅))
          false true O [].

End Saved.

(** ** Shifted logits *)

Module Shift.


End Shift.

(** ** Shapes *)

Module Shape.

(** Shape of one batch row: [n] positions of [h] entries. *)
Definition row_shape {F : Type} (n h : nat) (row : list (list F)) : Prop :=
  length row = n /\ Forall (fun v => length v = h) row.

End Shape.

(** * Properties *)

Module PyFacts.



End PyFacts.

Module HookFacts.

Import Hook.

Section EditOutput.

Context {F : Type} (fadd fmul : F -> F -> F) {Rest : Type}.

Abbreviation edit_rows := (Hook.edit_rows fadd fmul).
Abbreviation edit_output := (Hook.edit_output fadd fmul (Rest := Rest)).
Abbreviation scale := (Hook.scale fmul).
Abbreviation edited_row := (Hook.edited_row fadd).






(** C4. When the sequence dimension of the intercepted output is 1 (a decode
    step after the prompt), the hook returns its argument as it is, whatever
    [alpha], [directions] and [token_ranges] are, well shaped or not. *)
Theorem edit_output_single_token (alpha : F) (directions : list (list F))
    (token_ranges : list (Z * Z)) (output : Tensor3 F * Rest) :
  dimT output.1 = 1%nat ->
  edit_output alpha directions token_ranges output = Some output.
Proof.
  intros HT. unfold Hook.edit_output. now rewrite HT.
Qed.



End EditOutput.

(** The integer instance, run. *)
Section OnDemo.

Import Hook.Demo.

Example run_prompt :
  run prompt_out =
  Some (mkTensor3 2 3 2 [[[3; 4]; [5; 6]; [5; 6]]; [[10; 20]; [34; 46]; [54; 66]]], tt).
Proof. reflexivity. Qed.

Example run_decode : run decode_out = Some (decode_out, tt).
Proof. reflexivity. Qed.



Lemma edit_output_single_token_witness :
  dimT (decode_out, tt).1 = 1%nat /\ run decode_out = Some (decode_out, tt).
Proof.
  split; [reflexivity|].
  apply (edit_output_single_token Z.add Z.mul alpha directions token_ranges
           (decode_out, tt)).
  reflexivity.
Defined.



End OnDemo.

End HookFacts.

Module LossFacts.

Import Loss.

Local Open Scope R_scope.

Lemma rsum_exp_pos (x : list R) : x <> [] -> 0 < rsum (map exp x).
Proof.
  assert (Hnn : forall y, 0 <= rsum (map exp y)).
  { induction y as [|v y IH]; simpl; [lra|]. pose proof (exp_pos v). lra. }
  destruct x as [|v x]; [congruence|]. intros _. simpl.
  pose proof (exp_pos v). pose proof (Hnn x). lra.
Qed.

Lemma softmax_pos (x : list R) : Forall (fun p => 0 < p) (softmax x).
Proof.
  destruct x as [|v0 x0] eqn:Hx; [constructor|]. rewrite <- Hx.
  assert (Hs : 0 < rsum (map exp x)) by (apply rsum_exp_pos; congruence).
  unfold softmax. apply Forall_forall. intros p Hp.
  apply list_elem_of_In, in_map_iff in Hp. destruct Hp as (v & <- & _).
  apply Rdiv_lt_0_compat; [apply exp_pos | exact Hs].
Qed.

(** [log_softmax] is the logarithm of [softmax], entry by entry. *)
Lemma log_softmax_ln (x : list R) : log_softmax x = map ln (softmax x).
Proof.
  destruct x as [|v0 x0] eqn:Hx; [reflexivity|]. rewrite <- Hx.
  assert (Hs : 0 < rsum (map exp x)) by (apply rsum_exp_pos; congruence).
  unfold log_softmax, softmax. rewrite map_map. apply map_ext. intros v.
  unfold Rdiv.
  rewrite ln_mult by (auto using exp_pos, Rinv_0_lt_compat).
  rewrite ln_Rinv by exact Hs.
  rewrite ln_exp. lra.
Qed.

Lemma last_position_map {A B : Type} (f : A -> B) (x : list (list A)) (bi : nat) :
  last_position (map (map f) x) bi = f <$> last_position x bi.
Proof.
  unfold last_position. rewrite list_lookup_fmap.
  destruct (x !! bi) as [row|]; simpl; [|reflexivity].
  rewrite length_map.
  destruct (Py.index (length row) (-1)) as [pos|]; simpl; [|reflexivity].
  apply list_lookup_fmap.
Qed.

(** The entry the loop reads is the logarithm of the probability of the
    mediated token. *)
Lemma at_last_log_softmax (logits : list (list (list R))) (bi : nat) (mti : Z) :
  at_last (log_softmax3 logits) bi mti = ln <$> next_token_prob logits bi mti.
Proof.
  unfold at_last, next_token_prob, log_softmax3.
  rewrite last_position_map.
  destruct (last_position logits bi) as [vec|]; simpl; [|reflexivity].
  assert (Hlen : length (log_softmax vec) = length vec)
    by (unfold log_softmax; apply length_map).
  rewrite Hlen.
  destruct (Py.index (length vec) mti) as [k|]; simpl; [|reflexivity].
  rewrite log_softmax_ln. apply list_lookup_fmap.
Qed.

(** The accumulation loop adds the negated logarithms to its accumulator. *)
Lemma nll_loop_sum (logits : list (list (list R))) :
  forall (ids : list Z) (probs : list R) (bi : nat) (acc : R),
  length probs = length ids ->
  (forall k mti p, ids !! k = Some mti -> probs !! k = Some p ->
                   next_token_prob logits (bi + k)%nat mti = Some p) ->
  nll_loop (log_softmax3 logits) bi ids acc
    = Some (acc + rsum (map (fun p => - ln p) probs)).
Proof.
  induction ids as [|mti ids IH]; intros probs bi acc Hlen Hall;
    destruct probs as [|p probs]; simpl in Hlen; try discriminate.
  - simpl. f_equal. lra.
  - simpl. rewrite at_last_log_softmax.
    pose proof (Hall 0%nat mti p eq_refl eq_refl) as Hhead.
    rewrite Nat.add_0_r in Hhead. rewrite Hhead. simpl.
    rewrite (IH probs (S bi) (acc + - ln p)).
    + f_equal. lra.
    + lia.
    + intros k m q Hk Hq.
      replace (S bi + k)%nat with (bi + S k)%nat by lia.
      now apply Hall.
Qed.

(** The loss splits into the mean negative log-likelihood and the weighted
    regulariser. *)
Lemma editing_loss_decompose (lam : R) (logits_orig logits_edit : list (list (list R)))
    (mediated_token_ids : list Z) (probs : list R) :
  length probs = length mediated_token_ids ->
  (forall bi mti p, mediated_token_ids !! bi = Some mti -> probs !! bi = Some p ->
                    next_token_prob logits_edit bi mti = Some p) ->
  let base := mean (map (fun p => - ln p) probs) in
  editing_loss lam None logits_orig logits_edit mediated_token_ids = Some base /\
  forall k,
    editing_loss lam (Some k) logits_orig logits_edit mediated_token_ids =
      (e ← last_positions (log_softmax3 logits_edit) (length mediated_token_ids);
       o ← last_positions (log_softmax3 logits_orig) (length mediated_token_ids);
       Some (base + lam * kl_forward k e o)).
Proof.
  intros Hlen Hprobs base.
  assert (Hloop : nll_loop (log_softmax3 logits_edit) 0 mediated_token_ids 0
                  = Some (0 + rsum (map (fun p => - ln p) probs))).
  { apply nll_loop_sum; [exact Hlen|]. intros k mti p. simpl. apply Hprobs. }
  assert (Hbase : (0 + rsum (map (fun p => - ln p) probs))
                    / INR (length mediated_token_ids) = base).
  { unfold base, mean. rewrite length_map, Hlen. f_equal. lra. }
  unfold editing_loss. rewrite Hloop. simpl. rewrite Hbase.
  split; reflexivity.
Qed.

(** With [log_target], the pointwise terms of a row add up to the divergence
    of the input distribution from the target distribution. *)
Lemma kl_log_target_row (P : list R) :
  Forall (fun p => 0 < p) P ->
  forall Q, rsum (zip_with (kl_pointwise true) (map ln Q) (map ln P)) = KL P Q.
Proof.
  unfold KL. induction 1 as [|p P Hp HP IH]; intros Q.
  - destruct Q; reflexivity.
  - destruct Q as [|q Q]; [reflexivity|]. simpl.
    rewrite IH. unfold kl_pointwise. now rewrite exp_ln.
Qed.

Lemma kl_log_target_rows (Ps : list (list R)) :
  Forall (Forall (fun p => 0 < p)) Ps ->
  forall Qs,
    rsum (zip_with (fun xs ts => rsum (zip_with (kl_pointwise true) xs ts))
                   (map (map ln) Qs) (map (map ln) Ps))
    = rsum (zip_with KL Ps Qs).
Proof.
  induction 1 as [|P Ps HP HPs IH]; intros Qs.
  - destruct Qs; reflexivity.
  - destruct Qs as [|Q Qs]; [reflexivity|]. simpl.
    now rewrite IH, kl_log_target_row.
Qed.

(** The rows handed to the regulariser are the logarithms of the next-token
    distributions. *)
Lemma last_positions_log_softmax (logits : list (list (list R))) (Ds : list (list R)) :
  (forall b D, Ds !! b = Some D -> next_token_dist logits b = Some D) ->
  last_positions (log_softmax3 logits) (length Ds) = Some (map (map ln) Ds).
Proof.
  intros HD. unfold last_positions. apply mapM_Some_2.
  apply Forall2_same_length_lookup_2.
  - rewrite length_seq. now rewrite length_map.
  - intros i b lD Hb HlD.
    apply lookup_seq in Hb. destruct Hb as [-> Hi]. simpl.
    rewrite list_lookup_fmap in HlD.
    destruct (Ds !! i) as [D|] eqn:HDi; simpl in HlD; [|discriminate].
    injection HlD as <-.
    unfold log_softmax3. rewrite last_position_map.
    pose proof (HD i D HDi) as Hdist. unfold next_token_dist in Hdist.
    destruct (last_position logits i) as [vec|]; simpl in *; [|discriminate].
    injection Hdist as <-. now rewrite log_softmax_ln.
Qed.

Lemma next_token_dist_pos (logits : list (list (list R))) (Ds : list (list R)) :
  (forall b D, Ds !! b = Some D -> next_token_dist logits b = Some D) ->
  Forall (Forall (fun p => 0 < p)) Ds.
Proof.
  intros HD. apply Forall_lookup. intros b D Hb.
  pose proof (HD b D Hb) as Hdist. unfold next_token_dist in Hdist.
  destruct (last_position logits b) as [vec|]; simpl in *; [|discriminate].
  injection Hdist as <-. apply softmax_pos.
Qed.

(** The value of the loss under the regulariser of [Editor.fit]. *)
Lemma editing_loss_fit_kl (lam : R) (logits_orig logits_edit : list (list (list R)))
    (mediated_token_ids : list Z) (probs : list R) (Ps Qs : list (list R)) :
  length probs = length mediated_token_ids ->
  (forall bi mti p, mediated_token_ids !! bi = Some mti -> probs !! bi = Some p ->
                    next_token_prob logits_edit bi mti = Some p) ->
  length Ps = length mediated_token_ids ->
  length Qs = length mediated_token_ids ->
  (forall b P, Ps !! b = Some P -> next_token_dist logits_orig b = Some P) ->
  (forall b Q, Qs !! b = Some Q -> next_token_dist logits_edit b = Some Q) ->
  editing_loss lam (Some fit_kl) logits_orig logits_edit mediated_token_ids
    = Some (mean (map (fun p => - ln p) probs) + lam * mean (zip_with KL Ps Qs)).
Proof.
  intros Hlen Hprobs HlenP HlenQ HP HQ.
  destruct (editing_loss_decompose lam logits_orig logits_edit mediated_token_ids
              probs Hlen Hprobs) as [_ Hkl].
  rewrite Hkl.
  rewrite <- HlenQ at 1. rewrite (last_positions_log_softmax _ _ HQ). simpl.
  rewrite <- HlenP. rewrite (last_positions_log_softmax _ _ HP). simpl.
  do 3 f_equal. unfold kl_forward, mean. simpl.
  rewrite (kl_log_target_rows Ps (next_token_dist_pos _ _ HP) Qs).
  rewrite length_map, length_zip_with. f_equal. f_equal. lia.
Qed.

(** C6. With the regulariser off, [editing_loss] is the mean over the batch of
    [- ln p_b], where [p_b] is the probability the edited model gives to the
    mediated target token of sample [b] after the final sequence position; with
    a regulariser [k] on, that same mean is the summand the KL term is added to. *)
Theorem editing_loss_mean_nll (lam : R) (logits_orig logits_edit : list (list (list R)))
    (mediated_token_ids : list Z) (probs : list R) :
  length probs = length mediated_token_ids ->
  (forall bi mti p, mediated_token_ids !! bi = Some mti -> probs !! bi = Some p ->
                    next_token_prob logits_edit bi mti = Some p) ->
  let base := mean (map (fun p => - ln p) probs) in
  editing_loss lam None logits_orig logits_edit mediated_token_ids = Some base /\
  forall k,
    editing_loss lam (Some k) logits_orig logits_edit mediated_token_ids =
      (e ← last_positions (log_softmax3 logits_edit) (length mediated_token_ids);
       o ← last_positions (log_softmax3 logits_orig) (length mediated_token_ids);
       Some (base + lam * kl_forward k e o)).
Proof. exact (editing_loss_decompose lam logits_orig logits_edit mediated_token_ids probs). Qed.

(** C3, as the code has it.  With the regulariser of [Editor.fit]
    (batch-mean reduction, logarithmic target), [editing_loss] adds [lam] times
    the mean over the batch of [KL(P_b || Q_b)], where [P_b] is the ORIGINAL
    next-token distribution of sample [b] and [Q_b] the EDITED one, both after
    the final sequence position: the original distribution weighs the
    log-ratios. *)
Theorem editing_loss_kl_term (lam : R) (logits_orig logits_edit : list (list (list R)))
    (mediated_token_ids : list Z) (probs : list R) (Ps Qs : list (list R)) :
  length probs = length mediated_token_ids ->
  (forall bi mti p, mediated_token_ids !! bi = Some mti -> probs !! bi = Some p ->
                    next_token_prob logits_edit bi mti = Some p) ->
  length Ps = length mediated_token_ids ->
  length Qs = length mediated_token_ids ->
  (forall b P, Ps !! b = Some P -> next_token_dist logits_orig b = Some P) ->
  (forall b Q, Qs !! b = Some Q -> next_token_dist logits_edit b = Some Q) ->
  editing_loss lam (Some fit_kl) logits_orig logits_edit mediated_token_ids
    = Some (mean (map (fun p => - ln p) probs) + lam * mean (zip_with KL Ps Qs)).
Proof.
  exact (editing_loss_fit_kl lam logits_orig logits_edit mediated_token_ids probs Ps Qs).
Qed.

Section OnDemo.

Import Loss.Demo.

Lemma demo_probs :
  forall bi mti p, mediated_token_ids !! bi = Some mti -> [prob0] !! bi = Some p ->
                   next_token_prob logits_edit bi mti = Some p.
Proof.
  intros [|bi] mti p Hm Hp; simpl in *; [|discriminate].
  injection Hm as <-. injection Hp as <-. reflexivity.
Qed.

Lemma demo_P : forall b P, [P0] !! b = Some P -> next_token_dist logits_orig b = Some P.
Proof. intros [|b] P HP; simpl in *; [|discriminate]. injection HP as <-. reflexivity. Qed.

Lemma demo_Q : forall b Q, [Q0] !! b = Some Q -> next_token_dist logits_edit b = Some Q.
Proof. intros [|b] Q HQ; simpl in *; [|discriminate]. injection HQ as <-. reflexivity. Qed.

Lemma editing_loss_mean_nll_witness :
  editing_loss 1 None logits_orig logits_edit mediated_token_ids
    = Some (mean (map (fun p => - ln p) [prob0])).
Proof.
  apply (editing_loss_mean_nll 1 logits_orig logits_edit mediated_token_ids [prob0]).
  - reflexivity.
  - exact demo_probs.
Defined.

Lemma editing_loss_kl_term_witness :
  editing_loss 1 (Some fit_kl) logits_orig logits_edit mediated_token_ids
    = Some (mean (map (fun p => - ln p) [prob0]) + 1 * mean (zip_with KL [P0] [Q0])).
Proof.
  apply (editing_loss_kl_term 1 logits_orig logits_edit mediated_token_ids
           [prob0] [P0] [Q0]).
  - reflexivity.
  - exact demo_probs.
  - reflexivity.
  - reflexivity.
  - exact demo_P.
  - exact demo_Q.
Defined.

Lemma ln_4 : ln 4 = 2 * ln 2.
Proof.
  replace 4 with (2 * 2) by lra. rewrite ln_mult by lra. lra.
Qed.

Lemma P0_eq : P0 = [/ 2; / 2].
Proof.
  unfold P0, softmax, rsum. simpl. rewrite exp_0.
  repeat f_equal; lra.
Qed.

Lemma Q0_eq : Q0 = [/ 4; 3 * / 4].
Proof.
  unfold Q0, softmax, rsum. simpl. rewrite exp_0, exp_ln by lra.
  repeat f_equal; lra.
Qed.

Lemma KL_P0_Q0 : KL P0 Q0 = ln 2 - ln 3 / 2.
Proof.
  rewrite P0_eq, Q0_eq. unfold KL, rsum. simpl.
  rewrite ln_mult by lra. rewrite !ln_Rinv by lra. rewrite ln_4. lra.
Qed.

Lemma KL_Q0_P0 : KL Q0 P0 = 3 / 4 * ln 3 - ln 2.
Proof.
  rewrite P0_eq, Q0_eq. unfold KL, rsum. simpl.
  rewrite ln_mult by lra. rewrite !ln_Rinv by lra. rewrite ln_4. lra.
Qed.

Lemma KL_asymmetric : KL P0 Q0 <> KL Q0 P0.
Proof.
  rewrite KL_P0_Q0, KL_Q0_P0. intros Heq.
  assert (H : ln (2 ^ 8) = ln (3 ^ 5)).
  { rewrite !ln_pow by lra. simpl INR. lra. }
  apply ln_inv in H; [simpl in H; lra| |]; apply pow_lt; lra.
Qed.

(** C3, as the specification words it: on the one-sample batch, the loss is not the
    negative log-likelihood plus [lam * KL(edited || original)]. *)
Lemma editing_loss_kl_direction_counterexample :
  next_token_dist logits_orig 0 = Some P0 /\
  next_token_dist logits_edit 0 = Some Q0 /\
  editing_loss 1 None logits_orig logits_edit mediated_token_ids
    = Some (mean (map (fun p => - ln p) [prob0])) /\
  editing_loss 1 (Some fit_kl) logits_orig logits_edit mediated_token_ids
    <> Some (mean (map (fun p => - ln p) [prob0]) + 1 * KL Q0 P0).
Proof.
  split; [reflexivity|]. split; [reflexivity|].
  split.
  - apply (editing_loss_decompose 1 logits_orig logits_edit mediated_token_ids [prob0]
             eq_refl demo_probs).
  - rewrite (editing_loss_fit_kl 1 logits_orig logits_edit mediated_token_ids
               [prob0] [P0] [Q0] eq_refl demo_probs eq_refl eq_refl demo_P demo_Q).
    intros Heq. injection Heq as Heq. apply KL_asymmetric.
    unfold mean in Heq. simpl in Heq. unfold rsum in Heq. simpl in Heq. lra.
Qed.

End OnDemo.

End LossFacts.

Module RandomFacts.

Import Random.

Section Forward.

Context {F G : Type}.
Context (mvn_valid : list F -> list (list F) -> bool).
Context (mvn_sample : list F -> list (list F) -> nat -> G -> list (list F) * G).

(** The shape contract of the library's sampler: [sample((n,))] on a
    distribution without batch dimensions returns [n] rows. *)
Hypothesis mvn_sample_rows :
  forall mean covariance n g, length (mvn_sample mean covariance n g).1 = n.

Abbreviation forward := (Random.forward mvn_valid mvn_sample).


End Forward.

Section OnDemo.

Import Random.Demo.


Example forward_demo :
  Random.forward valid sample editor attribute_a 5 = Some ([[17; 27]; [18; 28]], 7).
Proof. reflexivity. Qed.

(** The first row of a draw is not fixed by the generator state alone: it
    changes with the number of rows asked for. *)
Example forward_rows_depend_on_count :
  Random.forward valid sample editor attribute_c 5 = Some ([[16; 26]], 6).
Proof. reflexivity. Qed.


End OnDemo.

End RandomFacts.


Module TrainingFacts.

Import Training.

Section Fit.

Context {Tensor Batch Loss OptState Stopper : Type}.
Context `{!Torch Tensor Batch Loss OptState} `{!Stopping Stopper Loss}.

Abbreviation state := (Training.state Tensor OptState).

(** **** Frame: who writes what *)

Lemma unchanged_refl (ls : list positive) (st : state) : unchanged_outside ls st st.
Proof. repeat split. Qed.

Lemma unchanged_trans (ls : list positive) (st1 st2 st3 : state) :
  unchanged_outside ls st1 st2 -> unchanged_outside ls st2 st3 ->
  unchanged_outside ls st1 st3.
Proof.
  intros (Hh & Hr & Hm) (Hh' & Hr' & Hm'). repeat split.
  - intros l Hl. rewrite Hh' by exact Hl. now apply Hh.
  - congruence.
  - congruence.
Qed.

Lemma step_parameter_frame (st : state) (l : positive) :
  (forall l', l' <> l -> heap (step_parameter st l) !! l' = heap st !! l') /\
  requires_grad (step_parameter st l) = requires_grad st /\
  model_training (step_parameter st l) = model_training st /\
  training (step_parameter st l) = training st /\
  log (step_parameter st l) = log st.
Proof.
  unfold step_parameter.
  destruct (heap st !! l) as [v|]; [|repeat split].
  destruct (grads st !! l) as [g|]; [|repeat split].
  destruct (adamw_update (optimizer st) l v g) as [v' o']. simpl.
  repeat split. intros l' Hl'. now apply lookup_insert_ne.
Qed.

Lemma step_parameters_frame (ls : list positive) :
  forall st : state,
    unchanged_outside ls st (foldl step_parameter st ls) /\
    training (foldl step_parameter st ls) = training st /\
    log (foldl step_parameter st ls) = log st.
Proof.
  assert (Hgen : forall (ks : list positive) (st : state),
    (forall l, l ∉ ks -> heap (foldl step_parameter st ks) !! l = heap st !! l) /\
    requires_grad (foldl step_parameter st ks) = requires_grad st /\
    model_training (foldl step_parameter st ks) = model_training st /\
    training (foldl step_parameter st ks) = training st /\
    log (foldl step_parameter st ks) = log st).
  { induction ks as [|k ks IH]; intros st; simpl; [repeat split|].
    destruct (IH (step_parameter st k)) as (Hh & Hr & Hm & Ht & Hl).
    destruct (step_parameter_frame st k) as (Hh' & Hr' & Hm' & Ht' & Hl').
    repeat split; try congruence.
    intros l Hnot. rewrite Hh.
    - apply Hh'. intros ->. apply Hnot. left.
    - intros Hin. apply Hnot. now right. }
  intros st. destruct (Hgen ls st) as (Hh & Hr & Hm & Ht & Hl).
  repeat split; assumption.
Qed.

Lemma train_batches_frame (epoch : nat) (ls : list positive) :
  forall (batches : list Batch) (acc : Loss) (st : state) (x : Loss) (st' : state),
    train_batches epoch ls batches acc st = Some (x, st') ->
    unchanged_outside ls st st' /\ training st' = training st.
Proof.
  induction batches as [|batch rest IH]; intros acc st x st' Hrun; simpl in Hrun.
  - injection Hrun as _ <-. split; [apply unchanged_refl | reflexivity].
  - destruct (editing_loss _ _ _ batch) as [loss|]; simpl in Hrun; [|discriminate].
    apply IH in Hrun. destruct Hrun as [Hun Htr].
    destruct (0 <? epoch)%nat.
    + destruct (step_parameters_frame ls
                  (backward epoch batch (emit (Forward epoch true) (zero_grad ls st))))
        as (Hs & Hst & _).
      split.
      * eapply unchanged_trans; [|exact Hun].
        eapply unchanged_trans; [|exact Hs]. repeat split.
      * rewrite Htr. simpl. rewrite Hst. reflexivity.
    + split; [|exact Htr].
      eapply unchanged_trans; [|exact Hun]. repeat split.
Qed.

Lemma val_batches_frame (epoch : nat) :
  forall (batches : list Batch) (acc : Loss) (st : state) (x : Loss) (st' : state),
    val_batches epoch batches acc st = Some (x, st') ->
    heap st' = heap st /\ optimizer st' = optimizer st /\
    requires_grad st' = requires_grad st /\
    model_training st' = model_training st /\ training st' = training st.
Proof.
  induction batches as [|batch rest IH]; intros acc st x st' Hrun; simpl in Hrun.
  - injection Hrun as _ <-. repeat split.
  - destruct (editing_loss _ _ _ batch) as [loss|]; simpl in Hrun; [|discriminate].
    apply IH in Hrun. exact Hrun.
Qed.

Lemma run_epoch_frame (ls : list positive) (train_loader val_loader : list Batch)
    (epoch : nat) (st : state) (v : Loss) (st' : state) :
  run_epoch ls train_loader val_loader epoch st = Some (v, st') ->
  unchanged_outside ls st st'.
Proof.
  unfold run_epoch. intros Hrun.
  destruct (train_batches epoch ls train_loader loss_zero (set_training true st))
    as [[tl st1]|] eqn:Htrain; simpl in Hrun; [|discriminate].
  destruct (py_div tl (length train_loader)) as [tl'|]; simpl in Hrun; [|discriminate].
  destruct (val_batches epoch val_loader loss_zero (set_training false st1))
    as [[vl st2]|] eqn:Hval; simpl in Hrun; [|discriminate].
  destruct (py_div vl (length val_loader)) as [vl'|]; simpl in Hrun; [|discriminate].
  injection Hrun as _ <-.
  apply train_batches_frame in Htrain. destruct Htrain as [(Hh & Hr & Hm) _].
  apply val_batches_frame in Hval. destruct Hval as (Hh' & _ & Hr' & Hm' & _).
  simpl in *. repeat split.
  - intros l Hl. rewrite Hh'. now apply Hh.
  - congruence.
  - congruence.
Qed.

(** The loop never binds [best] to anything but the state dictionary of the
    editor, and writes no storage but those of the optimiser. *)
Lemma epochs_frame (parameters : gmap string positive) (ls : list positive)
    (train_loader val_loader : list Batch) :
  forall (range : list nat) (st : state) (stopper : Stopper)
         (best : gmap string positive) st' stopper' best',
    epochs parameters ls train_loader val_loader range st stopper best
      = Some (st', stopper', best') ->
    unchanged_outside ls st st' /\
    (best' = best \/ best' = state_dict parameters).
Proof.
  induction range as [|epoch rest IH]; intros st stopper best st' stopper' best' Hrun;
    simpl in Hrun.
  - injection Hrun as <- _ <-. split; [apply unchanged_refl | now left].
  - destruct (run_epoch ls train_loader val_loader epoch st) as [[v st1]|] eqn:Hep;
      simpl in Hrun; [|discriminate].
    apply run_epoch_frame in Hep.
    destruct (stopper_call stopper v) as [stop stopper1].
    destruct stop.
    + injection Hrun as <- _ <-. split; [exact Hep | now left].
    + destruct (stopper_improved stopper1); apply IH in Hrun;
        destruct Hrun as [Hun Hbest]; (split; [eapply unchanged_trans; eassumption|]).
      * right. destruct Hbest; congruence.
      * exact Hbest.
Qed.

(** Loading a state dictionary whose tensors sit on the module's own storages
    copies every storage onto itself. *)
Lemma load_entries_aliased (parameters : gmap string positive)
    (h : gmap positive Tensor) (entries : list (string * positive)) :
  Forall (fun e => parameters !! e.1 = Some e.2) entries ->
  forall h', foldr (load_entry parameters) (Some h) entries = Some h' -> h' = h.
Proof.
  induction 1 as [|[name loc] entries Hhead Htail IH]; intros h' Hrun; simpl in *.
  - now injection Hrun.
  - destruct (foldr (load_entry parameters) (Some h) entries) as [h1|] eqn:Hrest;
      simpl in Hrun; [|discriminate].
    rewrite (IH h1 eq_refl) in Hrun. unfold load_entry in Hrun. simpl in Hrun.
    rewrite Hhead in Hrun. simpl in Hrun.
    destruct (h !! loc) as [v|] eqn:Hv; simpl in Hrun; [|discriminate].
    injection Hrun as <-. now apply insert_id.
Qed.

Lemma load_state_dict_aliased (parameters : gmap string positive) (st st' : state) :
  load_state_dict parameters (state_dict parameters) st = Some st' -> st' = st.
Proof.
  unfold load_state_dict, state_dict. intros Hrun.
  destruct (decide (dom parameters = dom parameters)); [|discriminate].
  destruct (foldr (load_entry parameters) (Some (heap st)) (map_to_list parameters))
    as [h|] eqn:Hfold; simpl in Hrun; [|discriminate].
  injection Hrun as <-.
  apply load_entries_aliased in Hfold.
  - rewrite Hfold. now destruct st.
  - apply Forall_forall. intros [name l] Hin. simpl.
    now apply elem_of_map_to_list in Hin.
Qed.

(** [load_state_dict(best)] at the end of [fit] changes nothing: what
    [fit] returns is the state the epoch loop was left in. *)
Lemma fit_returns_loop_state (parameters : gmap string positive)
    (model_parameters : list positive) (train_loader val_loader : list Batch)
    (max_epochs : Z) (lr : Loss) (patience : Z) (st st' : state) :
  fit parameters model_parameters train_loader val_loader max_epochs lr patience st
    = Some st' ->
  exists stopper' best',
    epochs parameters (parameters_of parameters) train_loader val_loader
           (epoch_range max_epochs) (fit_init model_parameters lr st)
           (stopper_new patience) (state_dict parameters)
      = Some (st', stopper', best').
Proof.
  unfold fit. fold (fit_init model_parameters lr st). intros Hrun.
  destruct (epochs parameters (parameters_of parameters) train_loader val_loader
              (epoch_range max_epochs) (fit_init model_parameters lr st)
              (stopper_new patience) (state_dict parameters))
    as [[[st1 stopper1] best1]|] eqn:Hloop; simpl in Hrun; [|discriminate].
  pose proof (epochs_frame _ _ _ _ _ _ _ _ _ _ _ Hloop) as [_ Hbest].
  assert (Hb : best1 = state_dict parameters) by (destruct Hbest; assumption).
  subst best1. apply load_state_dict_aliased in Hrun. subst st'.
  eauto.
Qed.

Lemma fit_frame (parameters : gmap string positive)
    (model_parameters : list positive) (train_loader val_loader : list Batch)
    (max_epochs : Z) (lr : Loss) (patience : Z) (st st' : state) :
  fit parameters model_parameters train_loader val_loader max_epochs lr patience st
    = Some st' ->
  unchanged_outside (parameters_of parameters) (fit_init model_parameters lr st) st'.
Proof.
  intros Hrun. apply fit_returns_loop_state in Hrun.
  destruct Hrun as (stopper' & best' & Hloop).
  now apply epochs_frame in Hloop.
Qed.

Lemma require_grads_lookup (model_parameters : list positive) (st : state) (l : positive) :
  l ∈ model_parameters ->
  requires_grad (require_grads model_parameters st) !! l = Some true.
Proof.
  unfold require_grads. simpl.
  induction model_parameters as [|k ks IH]; intros Hin; simpl.
  - now apply elem_of_nil in Hin.
  - destruct (decide (k = l)) as [->|Hne].
    + apply lookup_insert_eq.
    + rewrite lookup_insert_ne by exact Hne. apply IH.
      apply elem_of_cons in Hin. destruct Hin; congruence.
Qed.

(** **** The log *)

Lemma train_batches_log (epoch : nat) (ls : list positive) :
  forall (batches : list Batch) (acc : Loss) (st : state) (x : Loss) (st' : state),
    train_batches epoch ls batches acc st = Some (x, st') ->
    log st' = log st ++
      match epoch with
      | O => map (fun _ => Forward epoch true) batches
      | S _ => flat_map (fun _ => [Forward epoch true; Backward epoch; Step epoch]) batches
      end.
Proof.
  induction batches as [|batch rest IH]; intros acc st x st' Hrun; simpl in Hrun.
  - injection Hrun as _ <-. destruct epoch; simpl; now rewrite app_nil_r.
  - destruct (editing_loss _ _ _ batch) as [loss|]; simpl in Hrun; [|discriminate].
    apply IH in Hrun. rewrite Hrun. destruct epoch as [|e]; simpl.
    + now rewrite <- app_assoc.
    + destruct (step_parameters_frame ls
                  (backward (S e) batch (emit (Forward (S e) true) (zero_grad ls st))))
        as (_ & _ & Hlog).
      rewrite Hlog. simpl. now rewrite <- !app_assoc.
Qed.

(** At epoch 0 the training loop leaves values and optimiser alone. *)
Lemma train_batches_dry (ls : list positive) :
  forall (batches : list Batch) (acc : Loss) (st : state) (x : Loss) (st' : state),
    train_batches 0 ls batches acc st = Some (x, st') ->
    heap st' = heap st /\ optimizer st' = optimizer st.
Proof.
  induction batches as [|batch rest IH]; intros acc st x st' Hrun; simpl in Hrun.
  - injection Hrun as _ <-. split; reflexivity.
  - destruct (editing_loss _ _ _ batch) as [loss|]; simpl in Hrun; [|discriminate].
    apply IH in Hrun. exact Hrun.
Qed.

Lemma val_batches_log (epoch : nat) :
  forall (batches : list Batch) (acc : Loss) (st : state) (x : Loss) (st' : state),
    val_batches epoch batches acc st = Some (x, st') ->
    log st' = log st ++ map (fun _ => Forward epoch false) batches.
Proof.
  induction batches as [|batch rest IH]; intros acc st x st' Hrun; simpl in Hrun.
  - injection Hrun as _ <-. simpl. now rewrite app_nil_r.
  - destruct (editing_loss _ _ _ batch) as [loss|]; simpl in Hrun; [|discriminate].
    apply IH in Hrun. rewrite Hrun. simpl. now rewrite <- app_assoc.
Qed.

Lemma run_epoch_log (ls : list positive) (train_loader val_loader : list Batch)
    (epoch : nat) (st : state) (v : Loss) (st' : state) :
  run_epoch ls train_loader val_loader epoch st = Some (v, st') ->
  log st' = log st ++ epoch_trace train_loader val_loader epoch.
Proof.
  unfold run_epoch. intros Hrun.
  destruct (train_batches epoch ls train_loader loss_zero (set_training true st))
    as [[tl st1]|] eqn:Htrain; simpl in Hrun; [|discriminate].
  destruct (py_div tl (length train_loader)) as [tl'|]; simpl in Hrun; [|discriminate].
  destruct (val_batches epoch val_loader loss_zero (set_training false st1))
    as [[vl st2]|] eqn:Hval; simpl in Hrun; [|discriminate].
  destruct (py_div vl (length val_loader)) as [vl'|]; simpl in Hrun; [|discriminate].
  injection Hrun as _ <-.
  apply train_batches_log in Htrain. apply val_batches_log in Hval.
  simpl in *. rewrite Hval, Htrain. unfold epoch_trace. now rewrite <- app_assoc.
Qed.

Lemma run_epoch_dry (ls : list positive) (train_loader val_loader : list Batch)
    (st : state) (v : Loss) (st' : state) :
  run_epoch ls train_loader val_loader 0 st = Some (v, st') ->
  heap st' = heap st /\ optimizer st' = optimizer st.
Proof.
  unfold run_epoch. intros Hrun.
  destruct (train_batches 0 ls train_loader loss_zero (set_training true st))
    as [[tl st1]|] eqn:Htrain; simpl in Hrun; [|discriminate].
  destruct (py_div tl (length train_loader)) as [tl'|]; simpl in Hrun; [|discriminate].
  destruct (val_batches 0 val_loader loss_zero (set_training false st1))
    as [[vl st2]|] eqn:Hval; simpl in Hrun; [|discriminate].
  destruct (py_div vl (length val_loader)) as [vl'|]; simpl in Hrun; [|discriminate].
  injection Hrun as _ <-.
  apply train_batches_dry in Htrain. apply val_batches_frame in Hval.
  simpl in *. destruct Htrain, Hval as (? & ? & _). split; congruence.
Qed.


(** **** The run returns *)

Lemma step_parameter_grows (st : state) (l : positive) :
  heap_grows st (step_parameter st l).
Proof.
  unfold heap_grows, step_parameter. intros l' Hl'.
  destruct (heap st !! l) as [v|]; [|exact Hl'].
  destruct (grads st !! l) as [g|]; [|exact Hl'].
  destruct (adamw_update (optimizer st) l v g) as [v' o']. simpl.
  destruct (decide (l = l')) as [->|Hne].
  - rewrite lookup_insert_eq. eauto.
  - now rewrite lookup_insert_ne.
Qed.

Lemma step_parameters_grow (ls : list positive) :
  forall st : state, heap_grows st (foldl step_parameter st ls).
Proof.
  induction ls as [|k ks IH]; intros st l Hl; simpl; [exact Hl|].
  apply IH. now apply step_parameter_grows.
Qed.

Section Returns.

(** The loss is defined on every batch, whatever the parameter values. *)
Hypothesis loss_defined :
  forall (a b : bool) (h : gmap positive Tensor) (batch : Batch),
    is_Some (editing_loss a b h batch).

Lemma train_batches_returns (epoch : nat) (ls : list positive) :
  forall (batches : list Batch) (acc : Loss) (st : state),
    exists x st', train_batches epoch ls batches acc st = Some (x, st') /\
                  heap_grows st st'.
Proof.
  induction batches as [|batch rest IH]; intros acc st; simpl.
  - exists acc, st. split; [reflexivity | now intros l Hl].
  - destruct (loss_defined (training st) (model_training st) (heap st) batch)
      as [loss Hloss].
    rewrite Hloss. simpl.
    match goal with |- context [train_batches epoch ls rest ?a ?s] =>
      destruct (IH a s) as (x & st' & Hrun & Hgrow) end.
    exists x, st'. split; [exact Hrun|].
    intros l Hl. apply Hgrow. destruct (0 <? epoch)%nat; [|exact Hl].
    unfold optimizer_step. simpl. now apply step_parameters_grow.
Qed.

Lemma val_batches_returns (epoch : nat) :
  forall (batches : list Batch) (acc : Loss) (st : state),
    exists x st', val_batches epoch batches acc st = Some (x, st').
Proof.
  induction batches as [|batch rest IH]; intros acc st; simpl.
  - eauto.
  - destruct (loss_defined (training st) (model_training st) (heap st) batch)
      as [loss Hloss].
    rewrite Hloss. simpl. apply IH.
Qed.

Lemma run_epoch_returns (ls : list positive) (train_loader val_loader : list Batch)
    (epoch : nat) (st : state) :
  train_loader <> [] -> val_loader <> [] ->
  exists v st', run_epoch ls train_loader val_loader epoch st = Some (v, st') /\
                heap_grows st st'.
Proof.
  intros Htl Hvl. unfold run_epoch.
  destruct (train_batches_returns epoch ls train_loader loss_zero (set_training true st))
    as (tl & st1 & Htrain & Hgrow).
  rewrite Htrain. simpl.
  unfold py_div. destruct train_loader as [|b0 tr]; [congruence|]. simpl.
  destruct (val_batches_returns epoch val_loader loss_zero (set_training false st1))
    as (vl & st2 & Hval).
  rewrite Hval. simpl.
  destruct val_loader as [|b1 vr]; [congruence|]. simpl.
  eexists _, st2. split; [reflexivity|].
  apply val_batches_frame in Hval. destruct Hval as (Hh & _).
  intros l Hl. rewrite Hh. simpl. now apply Hgrow.
Qed.

Lemma epochs_returns (parameters : gmap string positive) (ls : list positive)
    (train_loader val_loader : list Batch) :
  train_loader <> [] -> val_loader <> [] ->
  forall (range : list nat) (st : state) (stopper : Stopper)
         (best : gmap string positive),
    exists st' stopper' best',
      epochs parameters ls train_loader val_loader range st stopper best
        = Some (st', stopper', best') /\
      heap_grows st st'.
Proof.
  intros Htl Hvl.
  induction range as [|epoch rest IH]; intros st stopper best; simpl.
  - exists st, stopper, best. split; [reflexivity | now intros l Hl].
  - destruct (run_epoch_returns ls train_loader val_loader epoch st Htl Hvl)
      as (v & st1 & Hep & Hgrow).
    rewrite Hep. simpl.
    destruct (stopper_call stopper v) as [stop stopper1].
    destruct stop; [eauto 6|].
    destruct (stopper_improved stopper1);
      match goal with |- context [epochs _ _ _ _ rest st1 stopper1 ?b] =>
        destruct (IH st1 stopper1 b) as (st' & sp' & b' & Hrun & Hgrow') end;
      exists st', sp', b'; (split; [exact Hrun|]);
      intros l Hl; now apply Hgrow', Hgrow.
Qed.

Lemma load_entries_returns (parameters : gmap string positive)
    (h : gmap positive Tensor) (entries : list (string * positive)) :
  Forall (fun e => parameters !! e.1 = Some e.2 /\ is_Some (h !! e.2)) entries ->
  foldr (load_entry parameters) (Some h) entries = Some h.
Proof.
  induction 1 as [|[name loc] entries [Hname [v Hv]] Htail IH]; simpl in *.
  - reflexivity.
  - rewrite IH. unfold load_entry. simpl. rewrite Hname. simpl. rewrite Hv. simpl.
    f_equal. now apply insert_id.
Qed.

(** With a loss defined everywhere, two nonempty loaders and a storage behind
    every parameter of the editor, [fit] returns. *)
Lemma fit_returns (parameters : gmap string positive)
    (model_parameters : list positive) (train_loader val_loader : list Batch)
    (max_epochs : Z) (lr : Loss) (patience : Z) (st : state) :
  train_loader <> [] -> val_loader <> [] ->
  (forall l, l ∈ parameters_of parameters -> is_Some (heap st !! l)) ->
  exists st',
    fit parameters model_parameters train_loader val_loader max_epochs lr patience st
      = Some st'.
Proof.
  intros Htl Hvl Halloc. unfold fit. fold (fit_init model_parameters lr st).
  destruct (epochs_returns parameters (parameters_of parameters) train_loader val_loader
              Htl Hvl (epoch_range max_epochs) (fit_init model_parameters lr st)
              (stopper_new patience) (state_dict parameters))
    as (st1 & sp1 & b1 & Hloop & Hgrow).
  rewrite Hloop. simpl.
  pose proof (epochs_frame _ _ _ _ _ _ _ _ _ _ _ Hloop) as [_ Hbest].
  assert (Hb : b1 = state_dict parameters) by (destruct Hbest; assumption).
  subst b1. unfold load_state_dict, state_dict.
  destruct (decide (dom parameters = dom parameters)); [|congruence].
  rewrite load_entries_returns; [simpl; eauto|].
  apply Forall_forall. intros [name l] Hin. simpl.
  split; [now apply elem_of_map_to_list in Hin|].
  apply Hgrow. simpl. apply Halloc.
  unfold parameters_of. apply list_elem_of_fmap. now exists (name, l).
Qed.

End Returns.


(** C9. The optimiser holds the editor's own parameters only; when none of
    them is a parameter of the language model, no optimiser step and no run
    of [fit] changes the value of a parameter of the language model, whatever
    the [requires_grad] flags are before or during the run. *)
Theorem fit_preserves_model_weights (parameters : gmap string positive)
    (model_parameters : list positive) (train_loader val_loader : list Batch)
    (max_epochs : Z) (lr : Loss) (patience : Z) (st st' : state) :
  (forall l, l ∈ model_parameters -> l ∉ parameters_of parameters) ->
  fit parameters model_parameters train_loader val_loader max_epochs lr patience st
    = Some st' ->
  (forall l, l ∈ model_parameters -> heap st' !! l = heap st !! l) /\
  (forall epoch s l, l ∈ model_parameters ->
     heap (optimizer_step epoch (parameters_of parameters) s) !! l = heap s !! l).
Proof.
  intros Hdisj Hrun. split.
  - intros l Hl. apply fit_frame in Hrun. destruct Hrun as (Hh & _ & _).
    rewrite Hh by (now apply Hdisj). reflexivity.
  - intros epoch s l Hl. unfold optimizer_step. simpl.
    destruct (step_parameters_frame (parameters_of parameters) s) as ((Hh & _ & _) & _).
    apply Hh. now apply Hdisj.
Qed.

(** C2, as the code has it.  [fit] puts the language model in evaluation mode
    and turns [requires_grad] ON for every one of its parameters; the flags stay
    on to the end of the run.  Only storages of the editor's own parameters are
    ever written: every other value is the one from before the run. *)
Theorem fit_enables_model_grads (parameters : gmap string positive)
    (model_parameters : list positive) (train_loader val_loader : list Batch)
    (max_epochs : Z) (lr : Loss) (patience : Z) (st st' : state) :
  fit parameters model_parameters train_loader val_loader max_epochs lr patience st
    = Some st' ->
  (forall l, l ∈ model_parameters -> requires_grad st' !! l = Some true) /\
  model_training st' = false /\
  (forall l, l ∉ parameters_of parameters -> heap st' !! l = heap st !! l).
Proof.
  intros Hrun. apply fit_frame in Hrun. destruct Hrun as (Hh & Hr & Hm).
  split; [|split].
  - intros l Hl. rewrite Hr. unfold fit_init. simpl.
    now apply (require_grads_lookup model_parameters (set_model_training false st)).
  - rewrite Hm. reflexivity.
  - intros l Hl. rewrite Hh by exact Hl. reflexivity.
Qed.

End Fit.

Section OnDemo.

Import Training.Demo.

Example run_full : run 10 2 = Some final.
Proof. vm_compute. reflexivity. Qed.

Lemma demo_disjoint : forall l, l ∈ model_parameters -> l ∉ parameters_of parameters.
Proof.
  intros l Hl Hin. apply list_elem_of_In in Hl. apply list_elem_of_In in Hin.
  vm_compute in Hl, Hin. intuition congruence.
Qed.


Lemma demo_model_parameter : 2%positive ∈ model_parameters.
Proof. now left. Qed.

Lemma fit_preserves_model_weights_witness :
  heap final !! 2%positive = heap st0 !! 2%positive.
Proof.
  exact (proj1 (fit_preserves_model_weights (Stopping0 := EarlyStopping_Stopping Z.ltb)
                  parameters model_parameters train_loader val_loader 10 1 2 st0 final
                  demo_disjoint run_full) 2%positive demo_model_parameter).
Defined.

Lemma fit_enables_model_grads_witness :
  requires_grad final !! 2%positive = Some true.
Proof.
  exact (proj1 (fit_enables_model_grads (Stopping0 := EarlyStopping_Stopping Z.ltb)
                  parameters model_parameters train_loader val_loader 10 1 2 st0 final
                  run_full) 2%positive demo_model_parameter).
Defined.

(** C2, as the specification words it: the parameter of the language model enters
    [fit] frozen and leaves it with [requires_grad] on, a gradient
    accumulated over the four training epochs, and its value untouched. *)
Lemma fit_model_requires_grad_counterexample :
  exists st',
    run 10 2 = Some st' /\
    2%positive ∈ model_parameters /\
    requires_grad st0 !! 2%positive = Some false /\
    requires_grad st' !! 2%positive = Some true /\
    grads st' !! 2%positive = Some 4 /\
    heap st' !! 2%positive = Some 7.
Proof.
  eexists. split; [exact run_full|].
  split; [now left|]. repeat split.
Qed.

(** C1, on the run of the spec: validation losses 5.0, 3.0, 2.0, 2.5, 3.0
    and patience 2.  The loop is left after epoch 4, on the second epoch in a
    row without improvement; the best validation loss the stopper has seen is
    2.0, reached at epoch 2 with the editor parameter at 2; [best] is bound to
    the live storages, so the state [fit] returns has the parameter of
    epoch 4, whose validation loss is 3.0. *)
Theorem fit_returns_last_epoch_parameters :
  exists st' stopper',
    loop 10 2 = Some (st', stopper', state_dict parameters) /\
    run 10 2 = Some st' /\
    log st' = flat_map (epoch_trace train_loader val_loader) (seq 0 5) /\
    best stopper' = Some 20 /\
    num_bad stopper' = 2 /\
    (run 2 2 ≫= fun st2 => heap st2 !! 1%positive) = Some 2 /\
    (run 2 2 ≫= fun st2 => editing_loss false false (heap st2) tt) = Some 20 /\
    heap st' !! 1%positive = Some 4 /\
    editing_loss false false (heap st') tt = Some 30.
Proof.
  exists final, (mkEarlyStopping 2 (Some 20) 2 false).
  repeat split; vm_compute; reflexivity.
Qed.

End OnDemo.

End TrainingFacts.

(** * Further properties of the hook *)

Module HookEdges.

Import Hook Shape.

Section EditOutput.

Context {F : Type} (fadd fmul : F -> F -> F) {Rest : Type}.

Abbreviation edit_rows := (Hook.edit_rows fadd fmul).
Abbreviation edit_output := (Hook.edit_output fadd fmul (Rest := Rest)).
Abbreviation scale := (Hook.scale fmul).
Abbreviation edited_row := (Hook.edited_row fadd).
Abbreviation add_slice := (Hook.add_slice fadd).

Lemma broadcast_length (h : nat) (off off' : list F) :
  broadcast h off = Some off' -> length off' = h.
Proof.
  unfold broadcast. destruct (Nat.eqb_spec (length off) h) as [Hlen|Hlen].
  - intros [= <-]. exact Hlen.
  - destruct off as [|x [|y off]]; try discriminate.
    intros [= <-]. apply length_replicate.
Qed.

Lemma broadcast_Some (h : nat) (off : list F) :
  is_Some (broadcast h off) <-> length off = h \/ length off = 1%nat.
Proof.
  unfold broadcast. destruct (Nat.eqb_spec (length off) h) as [Hlen|Hlen].
  - split; eauto.
  - destruct off as [|x [|y off]]; simpl in *; split;
      intros H; try (destruct H as [? H]; discriminate); eauto; lia.
Qed.

Lemma add_slice_shape (n h : nat) (i j : Z) (off : list F) (row row' : list (list F)) :
  row_shape n h row -> add_slice n h i j off row = Some row' -> row_shape n h row'.
Proof.
  intros [Hlen Hvec]. unfold Hook.add_slice.
  destruct (broadcast h off) as [off'|] eqn:Hb; simpl; [|discriminate].
  intros [= <-]. apply broadcast_length in Hb.
  unfold Hook.edited_row. split.
  - now rewrite length_imap.
  - apply Forall_lookup. intros p v Hp.
    rewrite list_lookup_imap in Hp.
    destruct (row !! p) as [v0|] eqn:Hv0; simpl in Hp; [|discriminate].
    injection Hp as <-.
    pose proof (proj1 (Forall_lookup _ _) Hvec p v0 Hv0) as Hv. simpl in Hv.
    destruct (Py.in_slice n i j p); [|exact Hv].
    rewrite length_zip_with. lia.
Qed.

(** Whenever the loop runs through, the batch keeps its number of rows and
    every row its shape. *)
Lemma edit_rows_shape (alpha : F) (directions : list (list F)) (n h : nat) :
  forall (token_ranges : list (Z * Z)) (bi : nat) (rows rows' : list (list (list F))),
    Forall (row_shape n h) rows ->
    edit_rows alpha directions n h bi token_ranges rows = Some rows' ->
    length rows' = length rows /\ Forall (row_shape n h) rows'.
Proof.
  induction token_ranges as [|[i j] rest IH]; intros bi rows rows' Hrows Hrun;
    simpl in Hrun.
  - injection Hrun as <-. split; [reflexivity | exact Hrows].
  - destruct (rows !! bi) as [row|] eqn:Hrow; simpl in Hrun; [|discriminate].
    destruct (directions !! bi) as [d|]; simpl in Hrun; [|discriminate].
    destruct (add_slice n h i j (scale alpha d) row) as [row'|] eqn:Hadd;
      simpl in Hrun; [|discriminate].
    apply IH in Hrun.
    + rewrite length_insert in Hrun. exact Hrun.
    + apply Forall_insert; [exact Hrows|].
      eapply add_slice_shape; [|exact Hadd].
      exact (proj1 (Forall_lookup _ _) Hrows bi row Hrow).
Qed.

(** The loop runs through exactly when every ranged row exists and has a
    direction that broadcasts against the hidden size. *)
Lemma edit_rows_returns_iff (alpha : F) (directions : list (list F)) (n h : nat) :
  forall (token_ranges : list (Z * Z)) (bi : nat) (rows : list (list (list F))),
    is_Some (edit_rows alpha directions n h bi token_ranges rows) <->
    forall k, (k < length token_ranges)%nat ->
      (bi + k < length rows)%nat /\
      exists d, directions !! (bi + k)%nat = Some d /\
                (length d = h \/ length d = 1%nat).
Proof.
  induction token_ranges as [|[i j] rest IH]; intros bi rows; simpl.
  - split; [intros _ k Hk; lia | eauto].
  - split.
    + intros [rows' Hrun] k Hk.
      destruct (rows !! bi) as [row|] eqn:Hrow; simpl in Hrun; [|discriminate].
      destruct (directions !! bi) as [d|] eqn:Hd; simpl in Hrun; [|discriminate].
      unfold Hook.add_slice in Hrun.
      destruct (broadcast h (scale alpha d)) as [off'|] eqn:Hb; simpl in Hrun;
        [|discriminate].
      destruct k as [|k].
      * rewrite Nat.add_0_r. split; [now apply lookup_lt_Some in Hrow|].
        exists d. split; [exact Hd|].
        assert (Hs : is_Some (broadcast h (scale alpha d))) by eauto.
        apply broadcast_Some in Hs. unfold Hook.scale in Hs.
        now rewrite length_map in Hs.
      * assert (Hsome : is_Some (edit_rows alpha directions n h (S bi) rest
                  (<[bi := edited_row n i j off' row]> rows))) by eauto.
        pose proof (proj1 (IH _ _) Hsome k ltac:(lia)) as Hk'. clear Hsome.
        rename Hk' into Hsome.
        rewrite length_insert in Hsome.
        now replace (bi + S k)%nat with (S bi + k)%nat by lia.
    + intros Hall.
      destruct (Hall 0%nat ltac:(lia)) as (Hrow & d & Hd & Hlen).
      rewrite Nat.add_0_r in Hrow, Hd.
      apply lookup_lt_is_Some_2 in Hrow. destruct Hrow as [row Hrow].
      rewrite Hrow, Hd. simpl. unfold Hook.add_slice.
      assert (Hs : is_Some (broadcast h (scale alpha d))).
      { apply broadcast_Some. unfold Hook.scale. now rewrite length_map. }
      destruct Hs as [off' Hb]. rewrite Hb. simpl.
      apply (proj2 (IH _ _)). intros k Hk. rewrite length_insert.
      replace (S bi + k)%nat with (bi + S k)%nat by lia.
      apply Hall. lia.
Qed.

(** Row by row, whenever the loop runs through, broadcasting included. *)
Lemma edit_rows_row (alpha : F) (directions : list (list F)) (n h : nat) :
  forall (token_ranges : list (Z * Z)) (bi : nat) (rows rows' : list (list (list F))),
    edit_rows alpha directions n h bi token_ranges rows = Some rows' ->
    (forall b, (b < bi \/ bi + length token_ranges <= b)%nat ->
               rows' !! b = rows !! b) /\
    (forall k i j, token_ranges !! k = Some (i, j) ->
       exists row d off',
         rows !! (bi + k)%nat = Some row /\
         directions !! (bi + k)%nat = Some d /\
         broadcast h (scale alpha d) = Some off' /\
         rows' !! (bi + k)%nat = Some (edited_row n i j off' row)).
Proof.
  induction token_ranges as [|[i j] rest IH]; intros bi rows rows' Hrun; simpl in Hrun.
  - injection Hrun as <-. split; [reflexivity|].
    intros k i j Hk. now rewrite lookup_nil in Hk.
  - destruct (rows !! bi) as [row|] eqn:Hrow; simpl in Hrun; [|discriminate].
    destruct (directions !! bi) as [d|] eqn:Hd; simpl in Hrun; [|discriminate].
    unfold Hook.add_slice in Hrun.
    destruct (broadcast h (scale alpha d)) as [off'|] eqn:Hb; simpl in Hrun;
      [|discriminate].
    apply IH in Hrun. destruct Hrun as [Hother Hmine]. split.
    + intros b Hb'. rewrite Hother by (simpl in Hb'; lia).
      apply list_lookup_insert_ne. simpl in Hb'. lia.
    + intros k i' j' Hk. destruct k as [|k]; simpl in Hk.
      * injection Hk as <- <-. rewrite Nat.add_0_r.
        exists row, d, off'. repeat split; try assumption.
        rewrite Hother by lia. apply list_lookup_insert_eq.
        now apply lookup_lt_Some in Hrow.
      * destruct (Hmine k i' j' Hk) as (row1 & d1 & off1 & Hr1 & Hd1 & Hb1 & Hres).
        rewrite list_lookup_insert_ne in Hr1 by lia.
        replace (bi + S k)%nat with (S bi + k)%nat by lia.
        exists row1, d1, off1. repeat split; assumption.
Qed.

Lemma edited_row_empty (n : nat) (i j : Z) (off : list F) (row : list (list F)) :
  0 <= j -> j <= i -> edited_row n i j off row = row.
Proof.
  intros H0 Hji. unfold Hook.edited_row. apply list_eq. intros p.
  rewrite list_lookup_imap. destruct (row !! p) as [v|]; simpl; [|reflexivity].
  assert (Hs : Py.in_slice n i j p = false).
  { unfold Py.in_slice, Py.slice_bound.
    destruct (Z.ltb_spec i 0); [lia|]. destruct (Z.ltb_spec j 0); [lia|].
    apply andb_false_iff.
    destruct (Nat.leb_spec (Z.to_nat (Z.min (Z.max i 0) (Z.of_nat n))) p);
      [right|now left].
    apply Nat.ltb_ge. lia. }
  now rewrite Hs.
Qed.

(** X1. Whenever the hook returns, on a prompt pass or on a decode step, it
    returns a tensor of the shape it was given, well formed if the input was,
    and passes the other outputs of the layer on as they are. *)
Theorem edit_output_keeps_shape (alpha : F) (directions : list (list F))
    (token_ranges : list (Z * Z)) (t : Tensor3 F) (rest : Rest)
    (out : Tensor3 F * Rest) :
  wf t ->
  edit_output alpha directions token_ranges (t, rest) = Some out ->
  dimB out.1 = dimB t /\ dimT out.1 = dimT t /\ dimH out.1 = dimH t /\
  wf out.1 /\ out.2 = rest.
Proof.
  intros [Hlen Hrows]. unfold Hook.edit_output. simpl.
  destruct (dimT t =? 1)%nat.
  - intros [= <-]. simpl. repeat split; assumption.
  - destruct (edit_rows alpha directions (dimT t) (dimH t) 0 token_ranges (data t))
      as [rows'|] eqn:Hrun; simpl; [|discriminate].
    intros [= <-]. simpl.
    apply edit_rows_shape in Hrun; [|exact Hrows].
    destruct Hrun as [Hlen' Hrows'].
    split; [reflexivity|]. split; [reflexivity|]. split; [reflexivity|].
    split; [|reflexivity]. split; [simpl; congruence | exact Hrows'].
Qed.

(** X2. On a pass whose sequence length is not 1 the hook returns (rather than
    raising) exactly when every token range has a batch row to apply to and a
    direction whose length is the hidden size, or 1; on a pass of sequence
    length 1 it always returns. *)
Theorem edit_output_returns_iff (alpha : F) (directions : list (list F))
    (token_ranges : list (Z * Z)) (t : Tensor3 F) (rest : Rest) :
  is_Some (edit_output alpha directions token_ranges (t, rest)) <->
  dimT t = 1%nat \/
  forall b, (b < length token_ranges)%nat ->
    (b < length (data t))%nat /\
    exists d, directions !! b = Some d /\
              (length d = dimH t \/ length d = 1%nat).
Proof.
  unfold Hook.edit_output. simpl.
  destruct (Nat.eqb_spec (dimT t) 1) as [HT|HT].
  - split; eauto.
  - pose proof (edit_rows_returns_iff alpha directions (dimT t) (dimH t)
                  token_ranges 0%nat (data t)) as Hiff. simpl in Hiff.
    destruct (edit_rows alpha directions (dimT t) (dimH t) 0 token_ranges (data t))
      as [rows'|]; simpl.
    + split; [|eauto]. intros _. right. apply Hiff. eauto.
    + split.
      * intros [x Hx]. discriminate.
      * intros [Hone|Hall]; [contradiction|].
        apply Hiff in Hall. destruct Hall as [x Hx]. discriminate.
Qed.

(** X3. A batch row comes back as it went in when it has no token range, or
    when its range is empty ([0 <= stop <= start]). *)
Theorem edit_output_row_untouched (alpha : F) (directions : list (list F))
    (token_ranges : list (Z * Z)) (t : Tensor3 F) (rest : Rest)
    (out : Tensor3 F * Rest) (b : nat) :
  edit_output alpha directions token_ranges (t, rest) = Some out ->
  (length token_ranges <= b)%nat \/
  (exists start stop, token_ranges !! b = Some (start, stop) /\
                      0 <= stop /\ stop <= start) ->
  data out.1 !! b = data t !! b.
Proof.
  unfold Hook.edit_output. simpl. intros Hrun Hcase.
  destruct (dimT t =? 1)%nat; [now injection Hrun as <-|].
  destruct (edit_rows alpha directions (dimT t) (dimH t) 0 token_ranges (data t))
    as [rows'|] eqn:Hrows; simpl in Hrun; [|discriminate].
  injection Hrun as <-. simpl.
  apply edit_rows_row in Hrows. destruct Hrows as [Hother Hmine].
  destruct Hcase as [Hb|(start & stop & Hb & H0 & Hle)].
  - apply Hother. right. simpl. lia.
  - destruct (Hmine b start stop Hb) as (row & d & off' & Hrow & _ & _ & Hres).
    simpl in *. rewrite Hres, Hrow. f_equal. now apply edited_row_empty.
Qed.

End EditOutput.

Section OnDemo.

Import Hook.Demo.

Lemma demo_wf : wf prompt_out.
Proof. unfold wf. simpl. split; [reflexivity|]. repeat constructor. Qed.

Lemma edit_output_keeps_shape_witness :
  wf (mkTensor3 2 3 2 [[[3; 4]; [5; 6]; [5; 6]]; [[10; 20]; [34; 46]; [54; 66]]]).
Proof.
  exact (proj1 (proj2 (proj2 (proj2
    (edit_output_keeps_shape Z.add Z.mul alpha directions token_ranges prompt_out tt
       _ demo_wf eq_refl))))).
Defined.

Lemma edit_output_row_untouched_witness :
  [[[1; 2]; [3; 4]; [5; 6]]; [[10; 20]; [34; 46]; [54; 66]]] !! 0%nat
    = data prompt_out !! 0%nat.
Proof.
  apply (edit_output_row_untouched Z.add Z.mul alpha directions [(2, 1); (1, 3)]
           prompt_out tt
           (mkTensor3 2 3 2 [[[1; 2]; [3; 4]; [5; 6]]; [[10; 20]; [34; 46]; [54; 66]]], tt)
           0%nat).
  - reflexivity.
  - right. exists 2, 1. split; [reflexivity | lia].
Defined.

End OnDemo.

End HookEdges.

(** * Further properties of the loss *)

Module LossEdges.

Import Loss.

Local Open Scope R_scope.

Lemma rsum_map_div (s : R) (xs : list R) :
  rsum (map (fun v => v / s) xs) = rsum xs / s.
Proof.
  induction xs as [|x xs IH]; simpl; [lra|]. rewrite IH. lra.
Qed.

Lemma softmax_sum (x : list R) : x <> [] -> rsum (softmax x) = 1.
Proof.
  intros Hx. pose proof (LossFacts.rsum_exp_pos x Hx) as Hs.
  unfold softmax.
  replace (map (fun v => exp v / rsum (map exp x)) x)
    with (map (fun v => v / rsum (map exp x)) (map exp x))
    by (rewrite map_map; reflexivity).
  rewrite rsum_map_div. field. lra.
Qed.

Lemma rsum_nonneg (xs : list R) : Forall (fun x => 0 <= x) xs -> 0 <= rsum xs.
Proof. induction 1; simpl; lra. Qed.

Lemma elem_le_rsum (xs : list R) :
  Forall (fun x => 0 <= x) xs -> forall k x, xs !! k = Some x -> x <= rsum xs.
Proof.
  induction 1 as [|y ys Hy Hys IH]; intros [|k] x Hk; simpl in *; try discriminate.
  - injection Hk as <-. pose proof (rsum_nonneg ys Hys). fold (rsum ys). lra.
  - pose proof (IH k x Hk). fold (rsum ys). lra.
Qed.

(** A next-token probability is a probability. *)
Lemma next_token_prob_range (logits : list (list (list R))) (bi : nat) (mti : Z) (p : R) :
  next_token_prob logits bi mti = Some p -> 0 < p <= 1.
Proof.
  unfold next_token_prob.
  destruct (last_position logits bi) as [vec|]; simpl; [|discriminate].
  destruct (Py.index (length vec) mti) as [k|]; simpl; [|discriminate].
  intros Hk.
  assert (Hne : vec <> []).
  { intros ->. destruct k; discriminate Hk. }
  pose proof (LossFacts.softmax_pos vec) as Hpos.
  split; [exact (proj1 (Forall_lookup _ _) Hpos k p Hk)|].
  rewrite <- (softmax_sum vec Hne).
  apply (elem_le_rsum (softmax vec)) with (k := k); [|exact Hk].
  eapply Forall_impl; [exact Hpos|]. simpl. intros; lra.
Qed.

Lemma mean_nonneg (xs : list R) : Forall (fun x => 0 <= x) xs -> 0 <= mean xs.
Proof.
  intros Hxs. unfold mean. pose proof (rsum_nonneg xs Hxs).
  destruct xs as [|x xs]; [simpl; rewrite Rdiv_0_l; lra|].
  apply Rmult_le_pos; [assumption|].
  apply Rlt_le, Rinv_0_lt_compat, lt_0_INR. simpl. lia.
Qed.

Lemma neg_ln_prob_nonneg (p : R) : 0 < p <= 1 -> 0 <= - ln p.
Proof.
  intros [Hp [Hlt | ->]]; [|rewrite ln_1; lra].
  pose proof (ln_increasing p 1 Hp Hlt) as H. rewrite ln_1 in H. lra.
Qed.

(** When the loop returns, every mediated token had a probability to read. *)
Lemma nll_loop_inv (logits : list (list (list R))) :
  forall (ids : list Z) (bi : nat) (acc r : R),
    nll_loop (log_softmax3 logits) bi ids acc = Some r ->
    exists probs,
      length probs = length ids /\
      forall k mti p, ids !! k = Some mti -> probs !! k = Some p ->
                      next_token_prob logits (bi + k)%nat mti = Some p.
Proof.
  induction ids as [|mti ids IH]; intros bi acc r Hrun; simpl in Hrun.
  - exists []. split; [reflexivity|]. intros k m p Hk. now rewrite lookup_nil in Hk.
  - rewrite LossFacts.at_last_log_softmax in Hrun.
    destruct (next_token_prob logits bi mti) as [p|] eqn:Hp; simpl in Hrun;
      [|discriminate].
    apply IH in Hrun. destruct Hrun as (probs & Hlen & Hall).
    exists (p :: probs). split; [simpl; lia|].
    intros [|k] m q Hk Hq; simpl in *.
    + injection Hk as <-. injection Hq as <-. now rewrite Nat.add_0_r.
    + replace (bi + S k)%nat with (S bi + k)%nat by lia. now apply Hall.
Qed.

Lemma KL_self (P : list R) : KL P P = 0.
Proof.
  unfold KL. induction P as [|p P IH]; simpl; [reflexivity|].
  fold (rsum (zip_with (fun p q => p * (ln p - ln q)) P P)). rewrite IH. lra.
Qed.

(** X4. Without a regulariser a loss that is defined is not negative: it is
    the mean of [- ln p] over next-token probabilities [p], and each of them
    lies in (0, 1]. *)
Theorem editing_loss_nll_nonneg (lam : R)
    (logits_orig logits_edit : list (list (list R)))
    (mediated_token_ids : list Z) (base : R) :
  editing_loss lam None logits_orig logits_edit mediated_token_ids = Some base ->
  0 <= base.
Proof.
  intros Hbase.
  assert (Hloop : is_Some (nll_loop (log_softmax3 logits_edit) 0 mediated_token_ids 0)).
  { unfold editing_loss in Hbase.
    destruct (nll_loop (log_softmax3 logits_edit) 0 mediated_token_ids 0);
      [eauto | discriminate]. }
  destruct Hloop as [s Hloop]. apply nll_loop_inv in Hloop.
  destruct Hloop as (probs & Hlen & Hprobs).
  rewrite (proj1 (LossFacts.editing_loss_decompose lam logits_orig logits_edit
             mediated_token_ids probs Hlen Hprobs)) in Hbase.
  injection Hbase as <-.
  apply mean_nonneg. apply Forall_forall. intros x Hx.
  apply list_elem_of_In, in_map_iff in Hx. destruct Hx as (p & <- & Hp).
  apply list_elem_of_In, list_elem_of_lookup in Hp. destruct Hp as [k Hk].
  destruct (lookup_lt_is_Some_2 mediated_token_ids k) as [mti Hmti].
  { rewrite <- Hlen. now apply lookup_lt_Some in Hk. }
  apply neg_ln_prob_nonneg.
  exact (next_token_prob_range _ _ _ _ (Hprobs k mti p Hmti Hk)).
Qed.

(** X5. An edit that leaves the logits as they are costs nothing: with equal
    original and edited logits the regularised loss is the plain one
    (and raises exactly when that one does). *)
Theorem editing_loss_unedited (lam : R) (logits : list (list (list R)))
    (mediated_token_ids : list Z) :
  editing_loss lam (Some fit_kl) logits logits mediated_token_ids
    = editing_loss lam None logits logits mediated_token_ids.
Proof.
  destruct (editing_loss lam None logits logits mediated_token_ids) as [base|] eqn:Hbase.
  - assert (Hloop : is_Some (nll_loop (log_softmax3 logits) 0 mediated_token_ids 0)).
    { unfold editing_loss in Hbase.
      destruct (nll_loop (log_softmax3 logits) 0 mediated_token_ids 0);
        [eauto | discriminate]. }
    destruct Hloop as [s Hloop]. apply nll_loop_inv in Hloop.
    destruct Hloop as (probs & Hlen & Hprobs).
    set (Ds := (fun b => default [] (next_token_dist logits b))
                 <$> seq 0 (length mediated_token_ids)).
    assert (HlenD : length Ds = length mediated_token_ids)
      by (unfold Ds; now rewrite length_fmap, length_seq).
    assert (HD : forall b D, Ds !! b = Some D -> next_token_dist logits b = Some D).
    { intros b D Hb. unfold Ds in Hb. rewrite list_lookup_fmap in Hb.
      destruct (seq 0 (length mediated_token_ids) !! b) as [b'|] eqn:Hseq;
        simpl in Hb; [|discriminate].
      injection Hb as <-. apply lookup_seq in Hseq. destruct Hseq as [-> Hlt].
      simpl in *.
      destruct (lookup_lt_is_Some_2 mediated_token_ids b Hlt) as [mti Hmti].
      destruct (lookup_lt_is_Some_2 probs b ltac:(lia)) as [p Hp].
      pose proof (Hprobs b mti p Hmti Hp) as Hnp. simpl in Hnp.
      unfold next_token_prob in Hnp. unfold next_token_dist.
      destruct (last_position logits b) as [vec|]; simpl in *;
        [reflexivity|discriminate]. }
    rewrite (LossFacts.editing_loss_fit_kl lam logits logits mediated_token_ids
               probs Ds Ds Hlen Hprobs HlenD HlenD HD HD).
    rewrite (proj1 (LossFacts.editing_loss_decompose lam logits logits
               mediated_token_ids probs Hlen Hprobs)) in Hbase.
    injection Hbase as <-. f_equal.
    assert (Hzero : mean (zip_with KL Ds Ds) = 0).
    { unfold mean.
      assert (Hs : rsum (zip_with KL Ds Ds) = 0).
      { clear. induction Ds as [|D Ds' IH]; simpl; [reflexivity|].
        fold (rsum (zip_with KL Ds' Ds')). rewrite IH, KL_self. lra. }
      rewrite Hs. apply Rdiv_0_l. }
    rewrite Hzero. lra.
  - unfold editing_loss in *.
    destruct (nll_loop (log_softmax3 logits) 0 mediated_token_ids 0)
      as [s|] eqn:Hloop; simpl in *; [discriminate|reflexivity].
Qed.

(** X6. The loss is defined only if every mediated token can be read: the
    logits have a row for each sample, that row has a last position, and the
    token id indexes into the vocabulary at it (Python style, so from
    [-V] to [V - 1] for a vocabulary of [V] entries). *)
Theorem editing_loss_defined_only_if (lam : R) (kl : option KLDivLoss)
    (logits_orig logits_edit : list (list (list R)))
    (mediated_token_ids : list Z) (loss : R) (bi : nat) (mti : Z) :
  editing_loss lam kl logits_orig logits_edit mediated_token_ids = Some loss ->
  mediated_token_ids !! bi = Some mti ->
  exists row vec,
    logits_edit !! bi = Some row /\
    last row = Some vec /\
    (- Z.of_nat (length vec) <= mti < Z.of_nat (length vec))%Z.
Proof.
  intros Hrun Hid.
  assert (Hloop : is_Some (nll_loop (log_softmax3 logits_edit) 0 mediated_token_ids 0)).
  { unfold editing_loss in Hrun.
    destruct (nll_loop (log_softmax3 logits_edit) 0 mediated_token_ids 0);
      [eauto | discriminate]. }
  destruct Hloop as [s Hloop]. apply nll_loop_inv in Hloop.
  destruct Hloop as (probs & Hlen & Hprobs).
  destruct (lookup_lt_is_Some_2 probs bi) as [p Hp].
  { rewrite Hlen. now apply lookup_lt_Some in Hid. }
  pose proof (Hprobs bi mti p Hid Hp) as Hnp. simpl in Hnp.
  unfold next_token_prob, last_position in Hnp.
  destruct (logits_edit !! bi) as [row|]; simpl in Hnp; [|discriminate].
  destruct (Py.index (length row) (-1)) as [pos|] eqn:Hpos; simpl in Hnp; [|discriminate].
  destruct (row !! pos) as [vec|] eqn:Hvec; simpl in Hnp; [|discriminate].
  destruct (Py.index (length vec) mti) as [k|] eqn:Hk; simpl in Hnp; [|discriminate].
  exists row, vec. split; [reflexivity|]. split.
  - rewrite last_lookup. unfold Py.index in Hpos.
    destruct ((0 <=? -1)%Z && (-1 <? Z.of_nat (length row))%Z) eqn:H1; [discriminate|].
    destruct ((- Z.of_nat (length row) <=? -1)%Z && (-1 <? 0)%Z) eqn:H2; [|discriminate].
    injection Hpos as <-. rewrite <- Hvec. f_equal. lia.
  - unfold Py.index in Hk.
    destruct ((0 <=? mti)%Z && (mti <? Z.of_nat (length vec))%Z) eqn:H1.
    + apply andb_true_iff in H1. destruct H1 as [H1 H1'].
      apply Z.leb_le in H1. apply Z.ltb_lt in H1'. lia.
    + destruct ((- Z.of_nat (length vec) <=? mti)%Z && (mti <? 0)%Z) eqn:H2;
        [|discriminate].
      apply andb_true_iff in H2. destruct H2 as [H2 H2'].
      apply Z.leb_le in H2. apply Z.ltb_lt in H2'. lia.
Qed.

Section OnDemo.

Import Loss.Demo.

Lemma editing_loss_nll_nonneg_witness :
  0 <= mean (map (fun p => - ln p) [prob0]).
Proof.
  apply (editing_loss_nll_nonneg 1 logits_orig logits_edit mediated_token_ids).
  exact (proj1 (LossFacts.editing_loss_decompose 1 logits_orig logits_edit
                  mediated_token_ids [prob0] eq_refl LossFacts.demo_probs)).
Defined.

Lemma editing_loss_defined_only_if_witness :
  exists row vec,
    logits_edit !! 0%nat = Some row /\
    last row = Some vec /\
    (- Z.of_nat (length vec) <= 1 < Z.of_nat (length vec))%Z.
Proof.
  apply (editing_loss_defined_only_if 1 None logits_orig logits_edit mediated_token_ids
           (mean (map (fun p => - ln p) [prob0])) 0%nat 1%Z).
  - exact (proj1 (LossFacts.editing_loss_decompose 1 logits_orig logits_edit
                    mediated_token_ids [prob0] eq_refl LossFacts.demo_probs)).
  - reflexivity.
Defined.

End OnDemo.

End LossEdges.

(** * Further properties of training *)

Module TrainingEdges.

Import Training.

Section Fit.

Context {Tensor Batch Loss OptState Stopper : Type}.
Context `{!Torch Tensor Batch Loss OptState} `{!Stopping Stopper Loss}.

Abbreviation state := (Training.state Tensor OptState).

(** **** Empty loaders, no epochs *)

Lemma run_epoch_empty (ls : list positive) (train_loader val_loader : list Batch)
    (epoch : nat) (st : state) :
  train_loader = [] \/ val_loader = [] ->
  run_epoch ls train_loader val_loader epoch st = None.
Proof.
  unfold run_epoch. intros [-> | ->].
  - reflexivity.
  - destruct (train_batches epoch ls train_loader loss_zero (set_training true st))
      as [[tl st1]|]; simpl; [|reflexivity].
    destruct (py_div tl (length train_loader)) as [tl'|]; reflexivity.
Qed.

Lemma epoch_range_cons (max_epochs : Z) :
  0 <= max_epochs -> exists rest, epoch_range max_epochs = 0%nat :: rest.
Proof.
  intros Hmax. unfold epoch_range.
  destruct (Z.to_nat (max_epochs + 1)) as [|n] eqn:Hn; [lia|].
  simpl. eauto.
Qed.

(** X7. With [max_epochs >= 0], a run over an empty training loader or an
    empty validation loader raises (the average over the loader divides by
    zero) instead of returning. *)
Theorem fit_empty_loader (parameters : gmap string positive)
    (model_parameters : list positive) (train_loader val_loader : list Batch)
    (max_epochs : Z) (lr : Loss) (patience : Z) (st : state) :
  0 <= max_epochs ->
  train_loader = [] \/ val_loader = [] ->
  fit parameters model_parameters train_loader val_loader max_epochs lr patience st
    = None.
Proof.
  intros Hmax Hempty. unfold fit.
  destruct (epoch_range_cons max_epochs Hmax) as [rest ->]. simpl.
  now rewrite (run_epoch_empty _ _ _ _ _ Hempty).
Qed.


(** **** A run of the first epoch only *)

(** X9. With [max_epochs = 0] a run that returns has only measured: it did
    the loss evaluations of epoch 0 and nothing else, every parameter value is
    the one from before, and the optimiser is the freshly built one. *)
Theorem fit_dry_run (parameters : gmap string positive)
    (model_parameters : list positive) (train_loader val_loader : list Batch)
    (lr : Loss) (patience : Z) (st st' : state) :
  fit parameters model_parameters train_loader val_loader 0 lr patience st
    = Some st' ->
  heap st' = heap st /\
  optimizer st' = adamw_new lr /\
  log st' = log st ++ map (fun _ => Forward 0 true) train_loader
                   ++ map (fun _ => Forward 0 false) val_loader.
Proof.
  intros Hrun. apply TrainingFacts.fit_returns_loop_state in Hrun.
  destruct Hrun as (stopper' & best' & Hloop).
  change (epoch_range 0) with [0%nat] in Hloop. simpl in Hloop.
  destruct (run_epoch (parameters_of parameters) train_loader val_loader 0
              (fit_init model_parameters lr st)) as [[v st1]|] eqn:Hep;
    simpl in Hloop; [|discriminate].
  pose proof (TrainingFacts.run_epoch_dry _ _ _ _ _ _ Hep) as [Hh Ho].
  pose proof (TrainingFacts.run_epoch_log _ _ _ _ _ _ _ Hep) as Hl.
  assert (Hst : st' = st1).
  { destruct (stopper_call (stopper_new patience) v) as [stop sp].
    destruct stop; [|destruct (stopper_improved sp)]; now injection Hloop. }
  subst st1. rewrite Hh, Ho, Hl. repeat split.
Qed.

(** **** Modes *)

Lemma run_epoch_mode (ls : list positive) (train_loader val_loader : list Batch)
    (epoch : nat) (st : state) (v : Loss) (st' : state) :
  run_epoch ls train_loader val_loader epoch st = Some (v, st') ->
  training st' = false.
Proof.
  unfold run_epoch. intros Hrun.
  destruct (train_batches epoch ls train_loader loss_zero (set_training true st))
    as [[tl st1]|]; simpl in Hrun; [|discriminate].
  destruct (py_div tl (length train_loader)) as [tl'|]; simpl in Hrun; [|discriminate].
  destruct (val_batches epoch val_loader loss_zero (set_training false st1))
    as [[vl st2]|] eqn:Hval; simpl in Hrun; [|discriminate].
  destruct (py_div vl (length val_loader)) as [vl'|]; simpl in Hrun; [|discriminate].
  injection Hrun as _ <-.
  apply TrainingFacts.val_batches_frame in Hval.
  destruct Hval as (_ & _ & _ & _ & Ht). exact Ht.
Qed.

Lemma epochs_mode (parameters : gmap string positive) (ls : list positive)
    (train_loader val_loader : list Batch) :
  forall (range : list nat) (st : state) (stopper : Stopper)
         (best : gmap string positive) st' stopper' best',
    epochs parameters ls train_loader val_loader range st stopper best
      = Some (st', stopper', best') ->
    range = [] \/ training st' = false.
Proof.
  induction range as [|epoch rest IH]; intros st stopper best st' stopper' best' Hrun;
    [now left|right]. simpl in Hrun.
  destruct (run_epoch ls train_loader val_loader epoch st) as [[v st1]|] eqn:Hep;
    simpl in Hrun; [|discriminate].
  apply run_epoch_mode in Hep.
  destruct (stopper_call stopper v) as [stop stopper1].
  destruct stop; [injection Hrun as <- _ _; exact Hep|].
  assert (Hcases : forall b,
    epochs parameters ls train_loader val_loader rest st1 stopper1 b
      = Some (st', stopper', best') -> training st' = false).
  { intros b Hb. destruct rest as [|e rest'].
    - simpl in Hb. injection Hb as <- _ _. exact Hep.
    - apply IH in Hb. destruct Hb; [discriminate | assumption]. }
  destruct (stopper_improved stopper1); eapply Hcases; exact Hrun.
Qed.

(** X10. When [max_epochs >= 0], [fit] hands the editor back in evaluation
    mode: the last thing an epoch does to the mode is [self.eval()]. *)
Theorem fit_leaves_eval_mode (parameters : gmap string positive)
    (model_parameters : list positive) (train_loader val_loader : list Batch)
    (max_epochs : Z) (lr : Loss) (patience : Z) (st st' : state) :
  0 <= max_epochs ->
  fit parameters model_parameters train_loader val_loader max_epochs lr patience st
    = Some st' ->
  training st' = false.
Proof.
  intros Hmax Hrun. apply TrainingFacts.fit_returns_loop_state in Hrun.
  destruct Hrun as (stopper' & best' & Hloop).
  apply epochs_mode in Hloop. destruct Hloop as [Hnil|Hmode]; [|exact Hmode].
  destruct (epoch_range_cons max_epochs Hmax) as [rest Hrange]. congruence.
Qed.

(** **** Loading a state dictionary *)

Lemma load_entries_copy (sd : gmap string positive) (h : gmap positive Tensor) :
  forall (entries : list (string * positive)) (h' : gmap positive Tensor),
    NoDup (entries.*2) ->
    (forall n s, sd !! n = Some s -> s ∉ entries.*2) ->
    foldr (load_entry sd) (Some h) entries = Some h' ->
    (forall l, l ∉ entries.*2 -> h' !! l = h !! l) /\
    (forall n l, (n, l) ∈ entries ->
       exists s, sd !! n = Some s /\ is_Some (h !! s) /\ h' !! l = h !! s).
Proof.
  induction entries as [|[n l] entries IH]; intros h' Hnodup Hdisj Hrun; simpl in *.
  - injection Hrun as <-. split; [reflexivity|].
    intros n l Hin. now apply elem_of_nil in Hin.
  - apply NoDup_cons in Hnodup. destruct Hnodup as [Hl Hnodup].
    destruct (foldr (load_entry sd) (Some h) entries) as [h1|] eqn:Hrest;
      simpl in Hrun; [|discriminate].
    destruct (IH h1 Hnodup) as [Hother Hmine]; [|reflexivity|].
    { intros n0 s0 Hs0 Hin. apply (Hdisj n0 s0 Hs0). now right. }
    unfold load_entry in Hrun. simpl in Hrun.
    destruct (sd !! n) as [s|] eqn:Hs; simpl in Hrun; [|discriminate].
    destruct (h1 !! s) as [v|] eqn:Hv; simpl in Hrun; [|discriminate].
    injection Hrun as <-.
    assert (Hsrc : h1 !! s = h !! s).
    { apply Hother. intros Hin. apply (Hdisj n s Hs). now right. }
    split.
    + intros l0 Hl0. rewrite lookup_insert_ne.
      * apply Hother. intros Hin. apply Hl0. now right.
      * intros ->. apply Hl0. now left.
    + intros n0 l0 Hin. apply elem_of_cons in Hin. destruct Hin as [Heq|Hin].
      * injection Heq as -> ->. exists s. split; [exact Hs|].
        rewrite lookup_insert_eq, <- Hsrc, Hv. eauto.
      * destruct (Hmine n0 l0 Hin) as (s0 & Hs0 & Hsome & Hval).
        exists s0. split; [exact Hs0|]. split; [exact Hsome|].
        rewrite lookup_insert_ne; [exact Hval|].
        intros ->. apply Hl. apply list_elem_of_fmap. now exists (n0, l0).
Qed.

(** X12. Loading a state dictionary whose tensors live on storages of their
    own (one read back from a file, say) into a module whose parameters sit on
    distinct storages returns only if the two have the same keys, and then sets
    every parameter to the value stored under its name, leaving all other
    storages as they were. *)
Theorem load_state_dict_copies (parameters sd : gmap string positive)
    (st st' : state) :
  NoDup (parameters_of parameters) ->
  (forall n s, sd !! n = Some s -> s ∉ parameters_of parameters) ->
  load_state_dict parameters sd st = Some st' ->
  dom sd = dom parameters /\
  (forall n l, parameters !! n = Some l ->
     exists s, sd !! n = Some s /\ is_Some (heap st !! s) /\
               heap st' !! l = heap st !! s) /\
  (forall l, l ∉ parameters_of parameters -> heap st' !! l = heap st !! l).
Proof.
  intros Hnodup Hdisj. unfold load_state_dict.
  destruct (decide (dom sd = dom parameters)) as [Hdom|]; [|discriminate].
  destruct (foldr (load_entry sd) (Some (heap st)) (map_to_list parameters))
    as [h'|] eqn:Hfold; simpl; [|discriminate].
  intros [= <-]. simpl.
  destruct (load_entries_copy sd (heap st) (map_to_list parameters) h' Hnodup Hdisj
              Hfold) as [Hother Hmine].
  split; [exact Hdom|]. split.
  - intros n l Hn. apply Hmine. now apply elem_of_map_to_list.
  - exact Hother.
Qed.

End Fit.

Section OnDemo.

Import Training.Demo Saved.

Lemma demo_parameters_of : parameters_of parameters = [1%positive].
Proof. vm_compute. reflexivity. Qed.


Lemma fit_empty_loader_witness :
  fit (Stopping0 := EarlyStopping_Stopping Z.ltb)
      parameters model_parameters train_loader [] 10 1 2 st0 = None.
Proof.
  apply (fit_empty_loader (Stopping0 := EarlyStopping_Stopping Z.ltb)
           parameters model_parameters train_loader [] 10 1 2 st0).
  - lia.
  - now right.
Defined.


Example run_dry : run 0 2 = Some (mkState (heap st0) ∅
          (<[1%positive := true]> (<[2%positive := true]> ∅))
          false false O [Forward 0 true; Forward 0 false]).
Proof. vm_compute. reflexivity. Qed.

Lemma fit_dry_run_witness :
  heap (mkState (heap st0) ∅ (<[1%positive := true]> (<[2%positive := true]> ∅))
          false false O [Forward 0 true; Forward 0 false]) = heap st0.
Proof.
  exact (proj1 (fit_dry_run (Stopping0 := EarlyStopping_Stopping Z.ltb)
                  parameters model_parameters train_loader val_loader 1 2 st0 _
                  run_dry)).
Defined.

Lemma fit_leaves_eval_mode_witness : training final = false.
Proof.
  apply (fit_leaves_eval_mode (Stopping0 := EarlyStopping_Stopping Z.ltb)
           parameters model_parameters train_loader val_loader 10 1 2 st0 final).
  - lia.
  - exact TrainingFacts.run_full.
Defined.

Lemma demo_file_disjoint :
  forall n s, sd_file !! n = Some s -> s ∉ parameters_of parameters.
Proof.
  rewrite demo_parameters_of. intros n s Hs. unfold sd_file in Hs.
  apply lookup_singleton_Some in Hs. destruct Hs as [_ <-].
  intros Hin. apply list_elem_of_singleton in Hin. discriminate.
Qed.

Lemma demo_nodup : NoDup (parameters_of parameters).
Proof. rewrite demo_parameters_of. apply NoDup_singleton. Qed.

Example load_file : load_state_dict parameters sd_file st_file = Some st_loaded.
Proof. vm_compute. reflexivity. Qed.

Lemma load_state_dict_copies_witness :
  exists s, sd_file !! "linear.weight"%string = Some s /\
            is_Some (heap st_file !! s) /\
            heap st_loaded !! 1%positive = heap st_file !! s.
Proof.
  apply (proj1 (proj2 (load_state_dict_copies parameters sd_file st_file st_loaded
                         demo_nodup demo_file_disjoint load_file))).
  reflexivity.
Defined.

End OnDemo.

End TrainingEdges.

(** * The life of a hook *)

Module LifecycleFacts.

Import Lifecycle.

Section Run.

Context {V D A Inputs Outputs : Type}.
Context (determine_layer_paths : list Z -> option (list string)).
Context (has_module : string -> bool).
Context (has_editor_inputs : gmap string V -> bool).
Context (inputs_from_batch : V -> option Inputs).
Context (model_forward model_generate :
           gmap nat (Trace V D A) -> Inputs -> gmap string kwarg -> option Outputs).

Abbreviation enter := (Lifecycle.enter (V := V) (D := D) (A := A)
                         determine_layer_paths has_module).
Abbreviation with_ := (Lifecycle.with_ (V := V) (D := D) (A := A)
                         determine_layer_paths has_module).
Abbreviation run precompute :=
  (Lifecycle._run_edited_model determine_layer_paths has_module has_editor_inputs
     precompute inputs_from_batch model_forward model_generate).

Lemma fresh_handle_free (m : Model V D A) :
  handles_fresh m -> hooks m !! next_handle m = None.
Proof.
  intros Hfresh. destruct (hooks m !! next_handle m) eqn:Hh; [|reflexivity].
  assert (Hlt : (next_handle m < next_handle m)%nat) by (apply Hfresh; eauto).
  lia.
Qed.

(** What entering does when it does not raise. *)
Lemma enter_Some (self self' : apply_direction V D A) (m m' : Model V D A) :
  enter self m = Some (self', m') ->
  exists layer_path,
    determine_layer_paths [layer self] = Some [layer_path] /\
    has_module layer_path = true /\
    _trace self' = Some (next_handle m) /\
    m' = mkModel (<[next_handle m :=
                     mkTrace layer_path (directions self) (token_ranges self) (alpha self)]>
                    (hooks m))
                 (S (next_handle m)).
Proof.
  unfold Lifecycle.enter. intros Hrun.
  destruct (determine_layer_paths [layer self]) as [[|p [|q ps]]|]; simpl in Hrun;
    try discriminate.
  destruct (has_module p) eqn:Hp; [|discriminate].
  injection Hrun as <- <-. exists p. repeat split. exact Hp.
Qed.

(** Leaving after entering undoes the installation. *)
Lemma enter_then_exit (self self' : apply_direction V D A) (m m' : Model V D A) :
  handles_fresh m ->
  enter self m = Some (self', m') ->
  exists self'' m'',
    exit self' m' = Some (self'', m'') /\
    hooks m'' = hooks m /\
    handles_fresh m'' /\
    exit self'' m'' = None.
Proof.
  intros Hfresh Henter.
  destruct (enter_Some _ _ _ _ Henter) as (p & _ & _ & Htrace & ->).
  unfold exit. rewrite Htrace. simpl.
  eexists _, _. split; [reflexivity|]. simpl.
  rewrite delete_insert_id by (now apply fresh_handle_free).
  repeat split. intros h Hh. apply Hfresh in Hh. simpl. lia.
Qed.

(** X13. Entering and leaving an [apply_direction] is a round trip on the
    model: the hooks installed after [__exit__] are those from before
    [__enter__], and the manager is un-entered again, so that a second
    [__exit__] fails its assertion. *)
Theorem enter_exit_round_trip (self self' : apply_direction V D A)
    (m m' : Model V D A) :
  handles_fresh m ->
  enter self m = Some (self', m') ->
  exists self'' m'',
    exit self' m' = Some (self'', m'') /\
    hooks m'' = hooks m /\
    handles_fresh m'' /\
    exit self'' m'' = None.
Proof. apply enter_then_exit. Qed.

Lemma with_scoped {R : Type} (manager : apply_direction V D A) (m : Model V D A)
    (body : Model V D A -> option R) :
  handles_fresh m ->
  hooks (with_ manager m body).1 = hooks m /\
  handles_fresh (with_ manager m body).1.
Proof.
  intros Hfresh. unfold Lifecycle.with_.
  destruct (Lifecycle.enter _ _ manager m) as [[manager' m']|] eqn:Henter;
    [|split; [reflexivity|exact Hfresh]].
  destruct (enter_then_exit _ _ _ _ Hfresh Henter)
    as (self'' & m'' & Hexit & Hhooks & Hfresh'' & _).
  rewrite Hexit. simpl. split; assumption.
Qed.

(** X14. However a call of the edited model ends (it returns, the model
    raises under the hook, or the preparation raises before the hook is
    there), the hooks on the language model afterwards are those from
    before the call. *)
Theorem run_edited_model_releases_hook
    (precompute : gmap string V -> list Z -> option (gmap string V))
    (editor : Editor V D) (em_alpha : A) (batch : gmap string V) (generate : bool)
    (inputs : option Inputs) (kwargs : gmap string kwarg) (m : Model V D A) :
  handles_fresh m ->
  hooks (run precompute editor em_alpha batch generate inputs kwargs m).1 = hooks m /\
  handles_fresh (run precompute editor em_alpha batch generate inputs kwargs m).1.
Proof.
  intros Hfresh. unfold Lifecycle._run_edited_model.
  destruct (prepare _ _ _ editor batch inputs) as [[[entity_ij dirs] inputs']|];
    [|split; [reflexivity|exact Hfresh]].
  now apply with_scoped.
Qed.


(** With the editor inputs already in the batch, nothing is recomputed. *)
Theorem run_edited_model_uses_cache
    (precompute1 precompute2 : gmap string V -> list Z -> option (gmap string V))
    (editor : Editor V D) (em_alpha : A) (batch : gmap string V) (generate : bool)
    (inputs : option Inputs) (kwargs : gmap string kwarg) (m : Model V D A) :
  has_editor_inputs batch = true ->
  run precompute1 editor em_alpha batch generate inputs kwargs m
    = run precompute2 editor em_alpha batch generate inputs kwargs m.
Proof.
  intros Hhas. unfold Lifecycle._run_edited_model, prepare. now rewrite Hhas.
Qed.

Lemma append_length (a b : string) :
  String.length (a +:+ b) = (String.length a + String.length b)%nat.
Proof. induction a as [|c a IH]; simpl; [reflexivity|]. now rewrite IH. Qed.

Lemma append_inj_r (s a b : string) : (a +:+ s = b +:+ s)%string -> a = b.
Proof.
  revert b. induction a as [|c a IH]; intros [|d b] Heq.
  - reflexivity.
  - apply (f_equal String.length) in Heq.
    rewrite (append_length "" s), (append_length (String d b) s) in Heq.
    simpl in Heq. lia.
  - apply (f_equal String.length) in Heq.
    rewrite (append_length "" s), (append_length (String c a) s) in Heq.
    simpl in Heq. lia.
  - simpl in Heq. injection Heq as -> Heq. f_equal. now apply IH.
Qed.

Lemma hiddens_key_inj (layer1 layer2 : Z) :
  Keys.hiddens_key layer1 = Keys.hiddens_key layer2 -> layer1 = layer2.
Proof.
  unfold Keys.hiddens_key. intros Heq.
  apply String.app_inj in Heq. apply append_inj_r in Heq.
  now apply pretty_Z_inj in Heq.
Qed.

(** X16. An edited model looks its hidden states up under the key of its
    editor's own layer, and the keys of different layers differ.  With the
    editor inputs already in the batch nothing is recomputed (the call
    does not depend on [precompute.editor_inputs_from_batch]); if such a
    batch lacks the entity ranges or the hidden states of this layer, the
    call raises before any hook is installed. *)
Theorem run_edited_model_cached_inputs
    (precompute1 precompute2 : gmap string V -> list Z -> option (gmap string V))
    (editor : Editor V D) (em_alpha : A) (batch : gmap string V) (generate : bool)
    (inputs : option Inputs) (kwargs : gmap string kwarg) (m : Model V D A) :
  has_editor_inputs batch = true ->
  run precompute1 editor em_alpha batch generate inputs kwargs m
    = run precompute2 editor em_alpha batch generate inputs kwargs m /\
  (batch !! "prompt.token_range.entity"%string = None \/
   batch !! Keys.hiddens_key (editor_layer editor) = None ->
   run precompute1 editor em_alpha batch generate inputs kwargs m = (m, None)) /\
  (forall layer, layer <> editor_layer editor ->
     Keys.hiddens_key layer <> Keys.hiddens_key (editor_layer editor)).
Proof.
  intros Hhas. split; [|split].
  - unfold Lifecycle._run_edited_model, prepare. now rewrite Hhas.
  - intros Hmiss. unfold Lifecycle._run_edited_model, prepare. rewrite Hhas. simpl.
    destruct (batch !! "prompt.token_range.entity"%string) as [e|] eqn:He; simpl;
      [|reflexivity].
    destruct Hmiss as [Hmiss|Hmiss]; [discriminate|].
    unfold Keys.hiddens_key in Hmiss. now rewrite Hmiss.
  - intros layer Hne Heq. apply Hne. now apply hiddens_key_inj.
Qed.

End Run.

Section OnDemo.

Import Lifecycle.Demo.

Lemma demo_fresh : handles_fresh m0.
Proof. intros h [x Hx]. unfold m0 in Hx. simpl in Hx. now rewrite lookup_empty in Hx. Qed.

Example demo_enter :
  Lifecycle.enter determine_layer_paths has_module manager m0 = Some (manager_in, m_in).
Proof. reflexivity. Qed.


Example demo_run_forward : run false ∅ = (mkModel ∅ 1, Some 1).
Proof. vm_compute. reflexivity. Qed.

Lemma enter_exit_round_trip_witness :
  exists self'' m'',
    exit manager_in m_in = Some (self'', m'') /\
    hooks m'' = hooks m0 /\
    handles_fresh m'' /\
    exit self'' m'' = None.
Proof.
  exact (enter_exit_round_trip determine_layer_paths has_module manager manager_in
           m0 m_in demo_fresh demo_enter).
Defined.

Lemma run_edited_model_releases_hook_witness :
  hooks (run true ∅).1 = hooks m0.
Proof.
  exact (proj1 (run_edited_model_releases_hook determine_layer_paths has_module
                  has_editor_inputs inputs_from_batch model_call model_call precompute
                  editor 1 batch true None ∅ m0 demo_fresh)).
Defined.


Lemma run_edited_model_uses_cache_witness :
  run true ∅ =
    _run_edited_model determine_layer_paths has_module has_editor_inputs
      (fun b _ => Some b) inputs_from_batch model_call model_call editor 1 batch
      true None ∅ m0.
Proof.
  exact (run_edited_model_uses_cache determine_layer_paths has_module has_editor_inputs
           inputs_from_batch model_call model_call precompute (fun b _ => Some b)
           editor 1 batch true None ∅ m0 eq_refl).
Defined.

Lemma run_edited_model_cached_inputs_witness :
  run true ∅ =
    _run_edited_model determine_layer_paths has_module has_editor_inputs
      (fun b _ => Some b) inputs_from_batch model_call model_call editor 1 batch
      true None ∅ m0.
Proof.
  exact (proj1 (run_edited_model_cached_inputs determine_layer_paths has_module
                  has_editor_inputs inputs_from_batch model_call model_call precompute
                  (fun b _ => Some b) editor 1 batch true None ∅ m0 eq_refl)).
Defined.

End OnDemo.

End LifecycleFacts.

(** * LinearEditor *)

Module LinearFacts.

Import Linear.

Lemma dtype_eqb_eq (a b : Dtype) : dtype_eqb a b = true <-> a = b.
Proof. destruct a, b; simpl; split; congruence. Qed.

Lemma device_eqb_eq (a b : Device) : device_eqb a b = true <-> a = b.
Proof.
  destruct a as [|i], b as [|j]; simpl; split; try congruence.
  - intros H. apply Nat.eqb_eq in H. now subst.
  - intros [= ->]. apply Nat.eqb_refl.
Qed.

Section Editor.

Context {F : Type} (fzero : F) (fadd fmul : F -> F -> F).

Abbreviation linear_row := (Linear.linear_row fzero fadd fmul).
Abbreviation linear_forward := (Linear.linear_forward fzero fadd fmul).
Abbreviation call := (Linear.call fzero fadd fmul).

Lemma new_linear_on (iw : nat -> nat -> F) (ib : nat -> F) (n_in n_out : nat) :
  layer_on n_in n_out cpu (new_linear iw ib n_in n_out).
Proof.
  unfold layer_on, linear_wf, new_linear. simpl.
  repeat split; now rewrite length_map, length_seq.
Qed.

Lemma init_on (iw : nat -> nat -> F) (ib : nat -> F) (hidden_size : nat)
    (rank : option Z) (editor : Net F) :
  init iw ib hidden_size rank = Some editor -> editor_on hidden_size cpu editor.
Proof.
  unfold init. destruct rank as [r|].
  - destruct (r <? 0)%Z; [discriminate|]. intros [= <-]. simpl.
    exists (Z.to_nat r). split; apply new_linear_on.
  - intros [= <-]. simpl. apply new_linear_on.
Qed.

Lemma linear_to_on (n_in n_out : nat) (d d' : Device) (l : Linear F) :
  layer_on n_in n_out d l -> layer_on n_in n_out d' (linear_to d' l).
Proof. unfold layer_on, linear_wf. simpl. intuition. Qed.

Lemma to_on (h : nat) (d d' : Device) (self : Net F) :
  editor_on h d self -> editor_on h d' (to d' self).
Proof.
  destruct self as [l|l0 l1]; simpl.
  - apply linear_to_on.
  - intros (r & H0 & H1). exists r. split; eapply linear_to_on; eassumption.
Qed.

(** After any number of moves the layers are on the device of the last one. *)
Lemma moves_on (h : nat) (devices : list Device) :
  forall (d : Device) (self : Net F),
    editor_on h d self ->
    editor_on h (default d (last devices)) (foldl (fun self d' => to d' self) self devices).
Proof.
  induction devices as [|d' devices IH]; intros d self Hon; simpl; [exact Hon|].
  rewrite last_cons.
  specialize (IH d' (to d' self) (to_on h d d' self Hon)).
  destruct (last devices); exact IH.
Qed.

(** A float32 layer on device [d] returns exactly on float32 inputs on [d]
    with [in_features] columns, and gives back as many rows of
    [out_features] entries, float32 and on [d]. *)
Lemma linear_forward_on (n_in n_out : nat) (d : Device) (l : Linear F)
    (x : Tensor2 F) :
  layer_on n_in n_out d l ->
  (is_Some (linear_forward l x)
     <-> dtype x = float32 /\ device x = d /\ (shape x).2 = n_in) /\
  (forall y, linear_forward l x = Some y ->
     dtype y = float32 /\ device y = d /\ shape y = ((shape x).1, n_out) /\
     (length (data x) = (shape x).1 -> tensor_wf y)).
Proof.
  intros ([Hw Hb] & Hin & Hout & Hdt & Hdev). unfold Linear.linear_forward.
  rewrite Hin, Hout, Hdt, Hdev.
  destruct (dtype_eqb (dtype x) float32) eqn:E1; simpl.
  - apply dtype_eqb_eq in E1.
    destruct (device_eqb (device x) d) eqn:E2; simpl.
    + apply device_eqb_eq in E2.
      destruct (Nat.eqb_spec (shape x).2 n_in) as [E3|E3].
      * split; [split; [tauto|eauto]|].
        intros y [= <-]. simpl. repeat split; simpl.
        -- now rewrite length_map.
        -- apply Forall_forall. intros row Hrow.
           apply list_elem_of_fmap in Hrow. destruct Hrow as (x0 & -> & _).
           unfold Linear.linear_row. rewrite length_zip_with. lia.
      * split; [|discriminate]. split; [intros [y Hy]; discriminate|tauto].
    + split; [|discriminate]. split; [intros [y Hy]; discriminate|].
      intros (_ & Hd & _). apply device_eqb_eq in Hd. congruence.
  - split; [|discriminate]. split; [intros [y Hy]; discriminate|].
    intros (Hd & _). apply dtype_eqb_eq in Hd. congruence.
Qed.

Lemma call_on (h : nat) (d : Device) (self : Net F) (attribute : Tensor2 F) :
  editor_on h d self ->
  tensor_wf attribute ->
  (is_Some (call self attribute)
     <-> dtype attribute = float32 /\ device attribute = d /\ (shape attribute).2 = h) /\
  (forall directions, call self attribute = Some directions ->
     tensor_wf directions /\ dtype directions = float32 /\ device directions = d /\
     shape directions = ((shape attribute).1, h)).
Proof.
  intros Hon [Hrows _]. destruct self as [l|l0 l1]; simpl in *.
  - destruct (linear_forward_on h h d l attribute Hon) as [Hiff Hout].
    split; [exact Hiff|].
    intros y Hy. destruct (Hout y Hy) as (Hdt & Hdev & Hsh & Hwf). auto.
  - destruct Hon as (r & H0 & H1).
    destruct (linear_forward_on h r d l0 attribute H0) as [Hiff0 Hout0].
    destruct (linear_forward l0 attribute) as [hidden|] eqn:Hhid; simpl.
    + destruct (Hout0 hidden eq_refl) as (Hdt0 & Hdev0 & Hsh0 & Hwf0).
      destruct (linear_forward_on r h d l1 hidden H1) as [Hiff1 Hout1].
      split.
      * split; [intros _; apply Hiff0; eauto|].
        intros _. apply Hiff1. rewrite Hsh0. auto.
      * intros y Hy. destruct (Hout1 y Hy) as (Hdt1 & Hdev1 & Hsh1 & Hwf1).
        rewrite Hsh0 in Hsh1. simpl in Hsh1.
        repeat split; try assumption; apply Hwf1, (Hwf0 Hrows).
    + split; [|discriminate]. split.
      * intros [y Hy]. discriminate.
      * intros Hall. apply Hiff0 in Hall. destruct Hall as [y Hy]. discriminate.
Qed.

(** X17. A [LinearEditor] built for hidden size [H], with or without a rank
    constraint (any rank [>= 0]), has float32 layers, created on the CPU and
    afterwards on the device of the last [to(device)].  Its [__call__]
    returns exactly on float32 tensors on that device with [H] columns, and
    then gives one float32 direction of [H] entries per row; hidden states of
    another dtype, float16 ones among them, make it raise. *)
Theorem call_preserves_shape (iw : nat -> nat -> F) (ib : nat -> F)
    (hidden_size : nat) (rank : option Z) (editor : Net F)
    (devices : list Device) (attribute : Tensor2 F) :
  init iw ib hidden_size rank = Some editor ->
  tensor_wf attribute ->
  let self := foldl (fun self d => to d self) editor devices in
  let d := default cpu (last devices) in
  (is_Some (call self attribute)
     <-> dtype attribute = float32 /\ device attribute = d /\
         (shape attribute).2 = hidden_size) /\
  (forall directions, call self attribute = Some directions ->
     tensor_wf directions /\ dtype directions = float32 /\ device directions = d /\
     shape directions = ((shape attribute).1, hidden_size)).
Proof.
  intros Hinit Hwf. simpl.
  apply call_on; [|exact Hwf].
  apply moves_on. exact (init_on iw ib hidden_size rank editor Hinit).
Qed.

End Editor.

Section OnDemo.

Import Linear.Demo.

Example call_demo :
  Linear.call 0 Z.add Z.mul (to (cuda 0) editor) attribute = Some directions.
Proof. reflexivity. Qed.

Example call_fp16_demo :
  Linear.call 0 Z.add Z.mul (to (cuda 0) editor) attribute_fp16 = None.
Proof. reflexivity. Qed.

Example call_before_move_demo :
  Linear.call 0 Z.add Z.mul editor attribute = None.
Proof. reflexivity. Qed.

Lemma demo_attribute_wf : tensor_wf attribute.
Proof. split; [reflexivity|]. repeat constructor. Qed.

Lemma call_preserves_shape_witness :
  is_Some (Linear.call 0 Z.add Z.mul (to (cuda 0) editor) attribute)
    <-> dtype attribute = float32 /\ device attribute = cuda 0 /\
        (shape attribute).2 = 2%nat.
Proof.
  exact (proj1 (call_preserves_shape 0 Z.add Z.mul init_weight init_bias 2 (Some 1)
                  editor [cuda 0] attribute eq_refl demo_attribute_wf)).
Defined.

End OnDemo.

End LinearFacts.

(** * Scripts *)

Module ScriptsFacts.

Import Scripts.

(** X18. The scripts run on the device asked for with [--device] only when
    CUDA is available (and the name is not empty); without CUDA they run on
    ["cpu"] whatever was asked for. *)
Theorem select_device_honoured (d : string) (cuda_is_available : bool) :
  (select_device (Some d) cuda_is_available = d
     <-> (cuda_is_available = true /\ d <> ""%string)
         \/ (cuda_is_available = false /\ d = "cpu"%string)) /\
  select_device (Some d) false = "cpu"%string /\
  select_device None cuda_is_available
    = (if cuda_is_available then "cuda" else "cpu")%string.
Proof.
  unfold select_device. split; [|split; reflexivity].
  destruct cuda_is_available.
  - destruct (String.eqb_spec d "") as [->|Hne].
    + split; [discriminate|]. intros [[_ H]|[H _]]; [congruence|discriminate].
    + split; [intros _; left; split; [reflexivity|exact Hne]|reflexivity].
  - split.
    + intros <-. right. split; reflexivity.
    + intros [[H _]|[_ ->]]; [discriminate|reflexivity].
Qed.

End ScriptsFacts.

(** * Editor.evaluate *)

Module EvaluateFacts.

Import Evaluate.

Section Results.

Context {Score Token : Type}.
Context (required_keys : list string).
Context (generate_before generate_after :
           gmap string (list Val) -> option (GenerateOutput Score Token)).
Context (topk : Z -> list (list Score) -> option (list (list Score) * list (list nat))).
Context (batch_convert_ids_to_tokens : list (list nat) -> list (list string)).
Context (batch_decode : list (list Token) -> list string).

Abbreviation sample_of := (Evaluate.sample_of required_keys).
Abbreviation batched_for :=
  (Evaluate.batched_for (Token := Token) topk batch_convert_ids_to_tokens batch_decode).
Abbreviation evaluate_batch :=
  (Evaluate.evaluate_batch required_keys generate_before generate_after topk
     batch_convert_ids_to_tokens batch_decode).
Abbreviation evaluate :=
  (Evaluate.evaluate required_keys generate_before generate_after topk
     batch_convert_ids_to_tokens batch_decode).

(** What a batch contributes, when its turn of the loop goes through. *)
Lemma evaluate_batch_Some (n_top : Z) (include : bool)
    (batch : gmap string (list Val)) (rs : list (EditorEvaluationResult Score)) :
  evaluate_batch n_top include batch = Some rs ->
  exists prompts samples before after out_before out_after,
    batch !! "prompt"%string = Some prompts /\
    generate_before batch = Some out_before /\
    generate_after batch = Some out_after /\
    mapM (sample_of batch) (seq 0 (length prompts)) = Some samples /\
    batched_for n_top include batch (length prompts) out_before = Some before /\
    batched_for n_top include batch (length prompts) out_after = Some after /\
    mapM (result_at samples before after) (seq 0 (length prompts)) = Some rs.
Proof.
  unfold Evaluate.evaluate_batch. intros Hrun.
  destruct (batch !! "prompt"%string) as [prompts|]; simpl in Hrun; [|discriminate].
  destruct (generate_before batch) as [ob|]; simpl in Hrun; [|discriminate].
  destruct (generate_after batch) as [oa|]; simpl in Hrun; [|discriminate].
  destruct (mapM (sample_of batch) (seq 0 (length prompts))) as [samples|] eqn:Hs;
    simpl in Hrun; [|discriminate].
  destruct (batched_for n_top include batch (length prompts) ob) as [before|] eqn:Hb;
    simpl in Hrun; [|discriminate].
  destruct (batched_for n_top include batch (length prompts) oa) as [after|] eqn:Ha;
    simpl in Hrun; [|discriminate].
  exists prompts, samples, before, after, ob, oa. repeat split; assumption.
Qed.

Lemma evaluate_batch_length (n_top : Z) (include : bool)
    (batch : gmap string (list Val)) (rs : list (EditorEvaluationResult Score)) :
  evaluate_batch n_top include batch = Some rs -> length rs = batch_size batch.
Proof.
  intros Hrun. apply evaluate_batch_Some in Hrun.
  destruct Hrun as (prompts & samples & before & after & ob & oa & Hp & _ & _ & _ & _ & _ & Hrs).
  apply length_mapM in Hrs. rewrite length_seq in Hrs.
  unfold batch_size. rewrite Hp. simpl. lia.
Qed.

(** X19. A run of [evaluate] that returns gives one result per sample: as
    many results as the batches of the loader have prompts. *)
Theorem evaluate_one_result_per_sample (column_names : list string) (n_top : Z)
    (loader : list (gmap string (list Val)))
    (results : list (EditorEvaluationResult Score)) :
  evaluate column_names n_top loader = Some results ->
  length results = sum_list (batch_size <$> loader).
Proof.
  unfold Evaluate.evaluate. intros Hrun.
  destruct (mapM _ loader) as [rss|] eqn:Hmap; simpl in Hrun; [|discriminate].
  injection Hrun as <-. rewrite length_concat. f_equal.
  apply mapM_Some_1 in Hmap.
  induction Hmap as [|batch rs loader' rss' Hhead _ IH]; simpl; [reflexivity|].
  apply evaluate_batch_length in Hhead. now rewrite Hhead, IH.
Qed.

Lemma batched_for_targets (n_top : Z) (include : bool)
    (batch : gmap string (list Val)) (cbs : nat)
    (outputs : GenerateOutput Score Token) (b : Batched Score) :
  batched_for n_top include batch cbs outputs = Some b ->
  if include
  then is_Some (target_mediated_score b) /\ is_Some (target_unmediated_score b)
  else target_mediated_score b = None /\ target_unmediated_score b = None.
Proof.
  unfold Evaluate.batched_for. intros Hrun.
  destruct (scores outputs !! 0%nat) as [fts|]; simpl in Hrun; [|discriminate].
  destruct (topk n_top fts) as [[ts ti]|]; simpl in Hrun; [|discriminate].
  destruct include.
  - destruct (batch !! "target_mediated.token_id"%string) as [mi|]; simpl in Hrun;
      [|discriminate].
    destruct (target_probs fts cbs mi) as [m|]; simpl in Hrun; [|discriminate].
    destruct (batch !! "target_unmediated.token_id"%string) as [ui|]; simpl in Hrun;
      [|discriminate].
    destruct (target_probs fts cbs ui) as [u|]; simpl in Hrun; [|discriminate].
    injection Hrun as <-. simpl. eauto.
  - injection Hrun as <-. simpl. eauto.
Qed.

Lemma entry_at_Some (vs : option (list Score)) (bi : nat) (v : option Score) :
  entry_at vs bi = Some v ->
  match vs with Some _ => is_Some v | None => v = None end.
Proof.
  unfold entry_at. destruct vs as [l|].
  - destruct (l !! bi); simpl; [|discriminate]. intros [= <-]. eauto.
  - now intros [= <-].
Qed.

Lemma result_at_Some (samples : list (gmap string Val)) (before after : Batched Score)
    (bi : nat) (r : EditorEvaluationResult Score) :
  result_at samples before after bi = Some r ->
  samples !! bi = Some (sample r) /\
  entry_at (target_mediated_score before) bi = Some (before_target_mediated_score r) /\
  entry_at (target_unmediated_score before) bi = Some (before_target_unmediated_score r) /\
  entry_at (target_mediated_score after) bi = Some (after_target_mediated_score r) /\
  entry_at (target_unmediated_score after) bi = Some (after_target_unmediated_score r).
Proof.
  unfold result_at. intros Hrun.
  destruct (samples !! bi) as [smp|]; simpl in Hrun; [|discriminate].
  destruct (top_scores before !! bi); simpl in Hrun; [|discriminate].
  destruct (top_tokens before !! bi); simpl in Hrun; [|discriminate].
  destruct (generations before !! bi); simpl in Hrun; [|discriminate].
  destruct (entry_at (target_mediated_score before) bi); simpl in Hrun; [|discriminate].
  destruct (entry_at (target_unmediated_score before) bi); simpl in Hrun; [|discriminate].
  destruct (top_scores after !! bi); simpl in Hrun; [|discriminate].
  destruct (top_tokens after !! bi); simpl in Hrun; [|discriminate].
  destruct (generations after !! bi); simpl in Hrun; [|discriminate].
  destruct (entry_at (target_mediated_score after) bi); simpl in Hrun; [|discriminate].
  destruct (entry_at (target_unmediated_score after) bi); simpl in Hrun; [|discriminate].
  injection Hrun as <-. simpl. repeat split.
Qed.

Lemma evaluate_batch_targets (n_top : Z) (include : bool)
    (batch : gmap string (list Val)) (rs : list (EditorEvaluationResult Score)) :
  evaluate_batch n_top include batch = Some rs ->
  Forall (fun r => if include then has_targets r else has_no_targets r) rs.
Proof.
  intros Hrun. apply evaluate_batch_Some in Hrun.
  destruct Hrun as (prompts & samples & before & after & ob & oa
                    & _ & _ & _ & _ & Hb & Ha & Hrs).
  apply batched_for_targets in Hb. apply batched_for_targets in Ha.
  apply mapM_Some_1 in Hrs. apply Forall_lookup. intros i r Hr.
  destruct (Forall2_lookup_r _ _ _ _ _ Hrs Hr) as (bi & _ & Hres).
  apply result_at_Some in Hres. destruct Hres as (_ & H1 & H2 & H3 & H4).
  apply entry_at_Some in H1, H2, H3, H4.
  unfold has_targets, has_no_targets.
  destruct include; destruct Hb as [Hb1 Hb2]; destruct Ha as [Ha1 Ha2].
  - destruct Hb1 as [? Hb1], Hb2 as [? Hb2], Ha1 as [? Ha1], Ha2 as [? Ha2].
    rewrite Hb1 in H1. rewrite Hb2 in H2. rewrite Ha1 in H3. rewrite Ha2 in H4.
    repeat split; assumption.
  - rewrite Hb1 in H1. rewrite Hb2 in H2. rewrite Ha1 in H3. rewrite Ha2 in H4.
    repeat split; assumption.
Qed.

(** X20. The results of a run carry target scores exactly when the data set
    has a column ["target_mediated"]: then every result has all four (mediated
    and unmediated, before and after), otherwise every result has none. *)
Theorem evaluate_target_scores (column_names : list string) (n_top : Z)
    (loader : list (gmap string (list Val)))
    (results : list (EditorEvaluationResult Score)) :
  evaluate column_names n_top loader = Some results ->
  ("target_mediated"%string ∈ column_names -> Forall has_targets results) /\
  ("target_mediated"%string ∉ column_names -> Forall has_no_targets results).
Proof.
  unfold Evaluate.evaluate. intros Hrun.
  destruct (mapM _ loader) as [rss|] eqn:Hmap; simpl in Hrun; [|discriminate].
  injection Hrun as <-. apply mapM_Some_1 in Hmap.
  assert (Hall : Forall (Forall (fun r =>
            if bool_decide ("target_mediated"%string ∈ column_names)
            then has_targets r else has_no_targets r)) rss).
  { apply Forall_lookup. intros i rs Hrs.
    destruct (Forall2_lookup_r _ _ _ _ _ Hmap Hrs) as (batch & _ & Hb).
    now apply evaluate_batch_targets in Hb. }
  split; intros Hcol.
  - rewrite bool_decide_true in Hall by exact Hcol. now apply Forall_concat.
  - rewrite bool_decide_false in Hall by exact Hcol. now apply Forall_concat.
Qed.

Lemma sample_of_lookup (batch : gmap string (list Val)) (bi : nat) :
  forall (keys : list string) (smp : gmap string Val),
    Evaluate.sample_of keys batch bi = Some smp ->
    forall key,
      smp !! key = if decide (key ∈ keys)
                   then batch !! key ≫= fun column => column !! bi
                   else None.
Proof.
  induction keys as [|k keys IH]; intros smp Hrun key;
    unfold Evaluate.sample_of in *; simpl in Hrun.
  - injection Hrun as <-. rewrite lookup_empty.
    destruct (decide (key ∈ [])) as [Hin|]; [|reflexivity].
    now apply elem_of_nil in Hin.
  - destruct (foldr _ (Some ∅) keys) as [acc|] eqn:Hacc; simpl in Hrun; [|discriminate].
    destruct (batch !! k) as [column|] eqn:Hcol; simpl in Hrun; [|discriminate].
    destruct (column !! bi) as [v|] eqn:Hv; simpl in Hrun; [|discriminate].
    injection Hrun as <-. specialize (IH acc eq_refl key).
    destruct (decide (k = key)) as [->|Hne].
    + rewrite lookup_insert_eq.
      destruct (decide (key ∈ key :: keys)) as [_|Hnot]; [|exfalso; apply Hnot; left].
      rewrite Hcol. simpl. now rewrite Hv.
    + rewrite lookup_insert_ne by exact Hne. rewrite IH.
      destruct (decide (key ∈ keys)) as [Hin|Hnin];
        destruct (decide (key ∈ k :: keys)) as [Hin'|Hnin']; try reflexivity.
      * exfalso. apply Hnin'. now right.
      * exfalso. apply elem_of_cons in Hin'. destruct Hin'; congruence.
Qed.

(** X21. Results come in the order of the samples, and each records its own
    sample: the [bi]-th result of a batch has, under every required key, the
    [bi]-th entry of the batch column of that key, and no other key. *)
Theorem evaluate_batch_sample (n_top : Z) (include : bool)
    (batch : gmap string (list Val)) (rs : list (EditorEvaluationResult Score))
    (bi : nat) (r : EditorEvaluationResult Score) (key : string) :
  evaluate_batch n_top include batch = Some rs ->
  rs !! bi = Some r ->
  sample r !! key =
    if decide (key ∈ required_keys)
    then batch !! key ≫= fun column => column !! bi
    else None.
Proof.
  intros Hrun Hr. apply evaluate_batch_Some in Hrun.
  destruct Hrun as (prompts & samples & before & after & ob & oa
                    & _ & _ & _ & Hs & _ & _ & Hrs).
  apply mapM_Some_1 in Hrs.
  destruct (Forall2_lookup_r _ _ _ _ _ Hrs Hr) as (bi' & Hseq & Hres).
  apply lookup_seq in Hseq. destruct Hseq as [-> Hlt]. simpl in Hres.
  apply result_at_Some in Hres. destruct Hres as (Hsmp & _).
  apply mapM_Some_1 in Hs.
  destruct (Forall2_lookup_r _ _ _ _ _ Hs Hsmp) as (bi'' & Hseq' & Hso).
  apply lookup_seq in Hseq'. destruct Hseq' as [-> _]. simpl in Hso.
  now apply sample_of_lookup.
Qed.

Lemma target_probs_lookup (fts : list (list Score)) (cbs : nat) (ids : list Val)
    (ps : list Score) (bi : nat) (p : Score) :
  target_probs fts cbs ids = Some ps ->
  length ids = cbs ->
  ps !! bi = Some p ->
  exists tid row k,
    ids !! bi = Some (VInt tid) /\
    fts !! bi = Some row /\
    Py.index (length row) tid = Some k /\
    row !! k = Some p.
Proof.
  unfold target_probs. intros Hrun Hlen Hp.
  destruct (mapM _ ids) as [zs|] eqn:Hzs; simpl in Hrun; [|discriminate].
  pose proof (length_mapM _ _ _ Hzs) as Hlz.
  unfold broadcast2 in Hrun. rewrite length_seq in Hrun.
  replace (cbs =? length zs)%nat with true in Hrun
    by (symmetry; apply Nat.eqb_eq; lia).
  simpl in Hrun. apply mapM_Some_1 in Hrun.
  destruct (Forall2_lookup_r _ _ _ _ _ Hrun Hp) as ([b z] & Hpair & Hval).
  apply lookup_zip_with_Some in Hpair.
  destruct Hpair as (b' & z' & Heq & Hb & Hz). injection Heq as -> ->.
  apply lookup_seq in Hb. destruct Hb as [-> _]. simpl in *.
  apply mapM_Some_1 in Hzs.
  destruct (Forall2_lookup_r _ _ _ _ _ Hzs Hz) as (v & Hv & Hint).
  destruct v as [str|n]; [discriminate|]. injection Hint as ->.
  destruct (fts !! bi) as [row|]; simpl in Hval; [|discriminate].
  destruct (Py.index (length row) z') as [k|] eqn:Hk; simpl in Hval; [|discriminate].
  exists z', row, k. repeat split; first [assumption | reflexivity].
Qed.

Lemma batched_for_mediated (n_top : Z) (batch : gmap string (list Val)) (cbs : nat)
    (outputs : GenerateOutput Score Token) (b : Batched Score) :
  batched_for n_top true batch cbs outputs = Some b ->
  exists fts ids ps,
    scores outputs !! 0%nat = Some fts /\
    batch !! "target_mediated.token_id"%string = Some ids /\
    target_probs fts cbs ids = Some ps /\
    target_mediated_score b = Some ps.
Proof.
  unfold Evaluate.batched_for. intros Hrun.
  destruct (scores outputs !! 0%nat) as [fts|]; simpl in Hrun; [|discriminate].
  destruct (topk n_top fts) as [[ts ti]|]; simpl in Hrun; [|discriminate].
  destruct (batch !! "target_mediated.token_id"%string) as [mi|]; simpl in Hrun;
    [|discriminate].
  destruct (target_probs fts cbs mi) as [m|] eqn:Hm; simpl in Hrun; [|discriminate].
  destruct (batch !! "target_unmediated.token_id"%string) as [ui|]; simpl in Hrun;
    [|discriminate].
  destruct (target_probs fts cbs ui) as [u|]; simpl in Hrun; [|discriminate].
  injection Hrun as <-. simpl. exists fts, mi, m. repeat split. exact Hm.
Qed.

(** X26. The mediated target score recorded before the edit is a score, not
    a probability, of the first generated step: for the [bi]-th sample of a
    batch with one target id per sample, it is the entry at that sample's
    mediated token id in row [bi] of the scores the plain model gave at its
    first generated token. *)
Theorem evaluate_batch_target_score (n_top : Z) (batch : gmap string (list Val))
    (rs : list (EditorEvaluationResult Score)) (ids : list Val)
    (bi : nat) (r : EditorEvaluationResult Score) :
  evaluate_batch n_top true batch = Some rs ->
  batch !! "target_mediated.token_id"%string = Some ids ->
  length ids = batch_size batch ->
  rs !! bi = Some r ->
  exists out fts tid row k s,
    generate_before batch = Some out /\
    scores out !! 0%nat = Some fts /\
    ids !! bi = Some (VInt tid) /\
    fts !! bi = Some row /\
    Py.index (length row) tid = Some k /\
    row !! k = Some s /\
    before_target_mediated_score r = Some s.
Proof.
  intros Hrun Hids Hlen Hr. apply evaluate_batch_Some in Hrun.
  destruct Hrun as (prompts & samples & before & after & ob & oa
                    & Hp & Hob & _ & _ & Hb & _ & Hrs).
  unfold batch_size in Hlen. rewrite Hp in Hlen. simpl in Hlen.
  apply batched_for_mediated in Hb.
  destruct Hb as (fts & ids' & ps & Hfts & Hids' & Hps & Htm).
  rewrite Hids in Hids'. injection Hids' as <-.
  apply mapM_Some_1 in Hrs.
  destruct (Forall2_lookup_r _ _ _ _ _ Hrs Hr) as (bi' & Hseq & Hres).
  apply lookup_seq in Hseq. destruct Hseq as [-> _]. simpl in Hres.
  apply result_at_Some in Hres. destruct Hres as (_ & Hbm & _).
  rewrite Htm in Hbm. unfold entry_at in Hbm.
  destruct (ps !! bi) as [s|] eqn:Hs; simpl in Hbm; [|discriminate].
  injection Hbm as Hbm.
  destruct (target_probs_lookup fts (length prompts) ids ps bi s Hps Hlen Hs)
    as (tid & row & k & Hid & Hrow & Hk & Hval).
  exists ob, fts, tid, row, k, s. repeat split; try assumption. now symmetry.
Qed.

End Results.

Section OnDemo.

Import Evaluate.Demo.

Example run_demo : run column_names = Some results.
Proof. vm_compute. reflexivity. Qed.

Example run_demo_scores :
  (fun r => (before_target_mediated_score r, after_target_mediated_score r,
             before_top_scores r, after_generations r)) <$> results
  = [(Some 5, Some 1, [1; 5], "2"%string); (Some 9, Some 6, [2; 0], "2"%string)].
Proof. vm_compute. reflexivity. Qed.

Lemma evaluate_one_result_per_sample_witness :
  length results = sum_list (batch_size <$> loader).
Proof.
  exact (evaluate_one_result_per_sample required_keys generate_before generate_after
           leading batch_convert_ids_to_tokens batch_decode column_names 2 loader
           results run_demo).
Defined.

Lemma demo_has_column : "target_mediated"%string ∈ column_names.
Proof. unfold column_names. set_solver. Qed.

Lemma evaluate_target_scores_witness : Forall has_targets results.
Proof.
  exact (proj1 (evaluate_target_scores required_keys generate_before generate_after
                  leading batch_convert_ids_to_tokens batch_decode column_names 2
                  loader results run_demo) demo_has_column).
Defined.

Example run_batch_demo :
  Evaluate.evaluate_batch required_keys generate_before generate_after leading
    batch_convert_ids_to_tokens batch_decode 2 true batch = Some results.
Proof. vm_compute. reflexivity. Qed.

Lemma evaluate_batch_sample_witness :
  (r ← first_result; sample r !! "entity"%string)
  = (if decide ("entity"%string ∈ required_keys)
     then batch !! "entity"%string ≫= fun column => column !! 0%nat
     else None).
Proof.
  destruct first_result as [r|] eqn:Hr; [|vm_compute in Hr; discriminate]. simpl.
  exact (evaluate_batch_sample required_keys generate_before generate_after leading
           batch_convert_ids_to_tokens batch_decode 2 true batch results 0%nat r
           "entity"%string run_batch_demo Hr).
Defined.

Example first_result_is : results !! 0%nat = first_result.
Proof. reflexivity. Qed.

Lemma evaluate_batch_target_score_witness :
  match first_result with
  | Some r =>
      exists out fts tid row k s,
        generate_before batch = Some out /\
        scores out !! 0%nat = Some fts /\
        [VInt 1; VInt 2] !! 0%nat = Some (VInt tid) /\
        fts !! 0%nat = Some row /\
        Py.index (length row) tid = Some k /\
        row !! k = Some s /\
        before_target_mediated_score r = Some s
  | None => False
  end.
Proof.
  destruct first_result as [r|] eqn:Hr; [|vm_compute in Hr; discriminate].
  apply (evaluate_batch_target_score required_keys generate_before generate_after leading
           batch_convert_ids_to_tokens batch_decode 2 batch results [VInt 1; VInt 2]
           0%nat r run_batch_demo).
  - reflexivity.
  - reflexivity.
  - rewrite <- Hr. reflexivity.
Defined.

End OnDemo.

End EvaluateFacts.

(** * Gradients during training *)

Module GradientFacts.

Import Training Gradients.

Section Fit.

Context {Tensor Batch Loss OptState Stopper : Type}.
Context `{!Torch Tensor Batch Loss OptState} `{!Stopping Stopper Loss}.

Abbreviation state := (Training.state Tensor OptState).

Lemma zero_grad_lookup (ls : list positive) (st : state) (l : positive) :
  grads (zero_grad ls st) !! l = if decide (l ∈ ls) then None else grads st !! l.
Proof.
  unfold zero_grad. simpl. induction ls as [|k ls IH]; simpl.
  - destruct (decide (l ∈ [])) as [Hin|]; [now apply elem_of_nil in Hin|reflexivity].
  - destruct (decide (k = l)) as [->|Hne].
    + rewrite lookup_delete_eq.
      destruct (decide (l ∈ l :: ls)) as [_|Hnot]; [reflexivity|].
      exfalso. apply Hnot. left.
    + rewrite lookup_delete_ne by exact Hne. rewrite IH.
      destruct (decide (l ∈ ls)) as [Hin|Hnin];
        destruct (decide (l ∈ k :: ls)) as [Hin'|Hnin']; try reflexivity.
      * exfalso. apply Hnin'. now right.
      * exfalso. apply elem_of_cons in Hin'. destruct Hin'; congruence.
Qed.

Lemma backward_lookup (epoch : nat) (batch : Batch) (st : state) (l : positive) :
  grads (backward epoch batch st) !! l =
    match fresh_grad st batch l with
    | Some g => Some (accumulate (grads st !! l) g)
    | None => grads st !! l
    end.
Proof.
  unfold backward, fresh_grad. simpl.
  rewrite lookup_merge, map_lookup_imap.
  destruct (requires_grad st !! l) as [[|]|]; simpl;
    try (destruct (grad_of (heap st) batch l)); simpl;
    destruct (grads st !! l); reflexivity.
Qed.

(** X22. One training step ([zero_grad], loss, [backward]) leaves on every
    parameter of the optimiser the gradient of this batch alone, and on any
    other storage that requires a gradient the gradient of this batch
    accumulated onto what the storage held before. *)
Theorem training_step_gradients (epoch : nat) (ls : list positive) (batch : Batch)
    (st : state) (l : positive) :
  grads (backward epoch batch (emit (Forward epoch true) (zero_grad ls st))) !! l =
    if decide (l ∈ ls)
    then accumulate None <$> fresh_grad st batch l
    else match fresh_grad st batch l with
         | Some g => Some (accumulate (grads st !! l) g)
         | None => grads st !! l
         end.
Proof.
  rewrite backward_lookup.
  change (fresh_grad (emit (Forward epoch true) (zero_grad ls st)) batch l)
    with (fresh_grad st batch l).
  change (grads (emit (Forward epoch true) (zero_grad ls st)) !! l)
    with (grads (zero_grad ls st) !! l).
  rewrite zero_grad_lookup.
  destruct (decide (l ∈ ls)); destruct (fresh_grad st batch l); reflexivity.
Qed.

Lemma step_parameters_grads (ls : list positive) :
  forall st : state, grads (foldl step_parameter st ls) = grads st.
Proof.
  induction ls as [|k ls IH]; intros st; simpl; [reflexivity|].
  rewrite IH. unfold step_parameter.
  destruct (heap st !! k); [|reflexivity].
  destruct (grads st !! k); [|reflexivity].
  now destruct (adamw_update _ _ _ _).
Qed.

Lemma train_batches_grad_kept (epoch : nat) (ls : list positive) (l : positive) :
  l ∉ ls ->
  forall (batches : list Batch) (acc : Loss) (st : state) (x : Loss) (st' : state),
    train_batches epoch ls batches acc st = Some (x, st') -> grad_kept l st st'.
Proof.
  intros Hl. induction batches as [|batch rest IH]; intros acc st x st' Hrun;
    simpl in Hrun.
  - injection Hrun as _ <-. now intros H1.
  - destruct (editing_loss _ _ _ batch) as [loss|]; simpl in Hrun; [|discriminate].
    apply IH in Hrun. intros Hsome. apply Hrun.
    assert (Hz : is_Some (grads (zero_grad ls st) !! l)).
    { rewrite zero_grad_lookup. now destruct (decide (l ∈ ls)). }
    destruct (0 <? epoch)%nat; [|exact Hz].
    unfold optimizer_step. simpl. rewrite step_parameters_grads.
    rewrite backward_lookup.
    destruct (fresh_grad _ batch l); [eauto|exact Hz].
Qed.

Lemma val_batches_grads (epoch : nat) :
  forall (batches : list Batch) (acc : Loss) (st : state) (x : Loss) (st' : state),
    val_batches epoch batches acc st = Some (x, st') -> grads st' = grads st.
Proof.
  induction batches as [|batch rest IH]; intros acc st x st' Hrun; simpl in Hrun.
  - now injection Hrun as _ <-.
  - destruct (editing_loss _ _ _ batch) as [loss|]; simpl in Hrun; [|discriminate].
    now apply IH in Hrun.
Qed.

Lemma run_epoch_grad_kept (ls : list positive) (train_loader val_loader : list Batch)
    (epoch : nat) (l : positive) (st : state) (v : Loss) (st' : state) :
  l ∉ ls ->
  run_epoch ls train_loader val_loader epoch st = Some (v, st') -> grad_kept l st st'.
Proof.
  intros Hl. unfold run_epoch. intros Hrun.
  destruct (train_batches epoch ls train_loader loss_zero (set_training true st))
    as [[tl st1]|] eqn:Htrain; simpl in Hrun; [|discriminate].
  destruct (py_div tl (length train_loader)) as [tl'|]; simpl in Hrun; [|discriminate].
  destruct (val_batches epoch val_loader loss_zero (set_training false st1))
    as [[vl st2]|] eqn:Hval; simpl in Hrun; [|discriminate].
  destruct (py_div vl (length val_loader)) as [vl'|]; simpl in Hrun; [|discriminate].
  injection Hrun as _ <-.
  apply (train_batches_grad_kept epoch ls l Hl) in Htrain.
  apply val_batches_grads in Hval. intros Hsome.
  rewrite Hval. simpl. now apply Htrain.
Qed.

Lemma epochs_grad_kept (parameters : gmap string positive) (ls : list positive)
    (train_loader val_loader : list Batch) (l : positive) :
  l ∉ ls ->
  forall (range : list nat) (st : state) (stopper : Stopper)
         (best : gmap string positive) st' stopper' best',
    epochs parameters ls train_loader val_loader range st stopper best
      = Some (st', stopper', best') ->
    grad_kept l st st'.
Proof.
  intros Hl.
  induction range as [|epoch rest IH]; intros st stopper best st' stopper' best' Hrun;
    simpl in Hrun.
  - injection Hrun as <- _ _. now intros H1.
  - destruct (run_epoch ls train_loader val_loader epoch st) as [[v st1]|] eqn:Hep;
      simpl in Hrun; [|discriminate].
    apply (run_epoch_grad_kept _ _ _ _ l _ _ _ Hl) in Hep.
    destruct (stopper_call stopper v) as [stop stopper1].
    destruct stop; [injection Hrun as <- _ _; exact Hep|].
    destruct (stopper_improved stopper1); apply IH in Hrun;
      intros Hsome; now apply Hrun, Hep.
Qed.

(** X23. [fit] never clears the gradient of a storage outside the
    optimiser (a parameter of the language model, say): one that holds a
    gradient when [fit] starts still holds one when it returns. *)
Theorem fit_keeps_foreign_gradients (parameters : gmap string positive)
    (model_parameters : list positive) (train_loader val_loader : list Batch)
    (max_epochs : Z) (lr : Loss) (patience : Z) (st st' : state) (l : positive) :
  l ∉ parameters_of parameters ->
  is_Some (grads st !! l) ->
  fit parameters model_parameters train_loader val_loader max_epochs lr patience st
    = Some st' ->
  is_Some (grads st' !! l).
Proof.
  intros Hl Hsome Hrun. apply TrainingFacts.fit_returns_loop_state in Hrun.
  destruct Hrun as (stopper' & best' & Hloop).
  apply (epochs_grad_kept _ _ _ _ l Hl) in Hloop. now apply Hloop.
Qed.

End Fit.

Section OnDemo.

Import Training.Demo Saved.

Example run_again :
  fit (Stopper := EarlyStopping Z) (Stopping0 := EarlyStopping_Stopping Z.ltb)
      parameters model_parameters train_loader val_loader 10 1 2 final = Some st_again.
Proof. vm_compute. reflexivity. Qed.

Lemma demo_foreign : 2%positive ∉ parameters_of parameters.
Proof.
  rewrite TrainingEdges.demo_parameters_of. intros Hin.
  apply list_elem_of_singleton in Hin. discriminate.
Qed.

Lemma demo_has_grad : is_Some (grads final !! 2%positive).
Proof. vm_compute. eauto. Qed.

Lemma fit_keeps_foreign_gradients_witness : is_Some (grads st_again !! 2%positive).
Proof.
  exact (fit_keeps_foreign_gradients (Stopping0 := EarlyStopping_Stopping Z.ltb)
           parameters model_parameters train_loader val_loader 10 1 2 final st_again
           2%positive demo_foreign demo_has_grad run_again).
Defined.

End OnDemo.

End GradientFacts.

(** * What the loss reads *)

Module LossFrame.

Import Loss Shift.

Local Open Scope R_scope.

Lemma at_last_ext (x1 x2 : list (list (list R))) (bi : nat) (mti : Z) :
  last_position x1 bi = last_position x2 bi ->
  at_last (log_softmax3 x1) bi mti = at_last (log_softmax3 x2) bi mti.
Proof.
  intros Heq. unfold at_last, log_softmax3.
  now rewrite !LossFacts.last_position_map, Heq.
Qed.

Lemma nll_loop_ext (x1 x2 : list (list (list R))) :
  (forall b, last_position x1 b = last_position x2 b) ->
  forall (ids : list Z) (bi : nat) (acc : R),
    nll_loop (log_softmax3 x1) bi ids acc = nll_loop (log_softmax3 x2) bi ids acc.
Proof.
  intros Heq. induction ids as [|mti ids IH]; intros bi acc; simpl; [reflexivity|].
  rewrite (at_last_ext x1 x2 bi mti (Heq bi)).
  destruct (at_last (log_softmax3 x2) bi mti); simpl; [apply IH | reflexivity].
Qed.

Lemma last_positions_ext (x1 x2 : list (list (list R))) (n : nat) :
  (forall b, last_position x1 b = last_position x2 b) ->
  last_positions (log_softmax3 x1) n = last_positions (log_softmax3 x2) n.
Proof.
  intros Heq. unfold last_positions. apply mapM_ext. intros b.
  unfold log_softmax3. now rewrite !LossFacts.last_position_map, Heq.
Qed.

(** X24. The loss reads the logits at the final sequence position only: two
    runs whose original logits agree there, row by row, and whose edited logits
    agree there, have the same loss (or raise alike), whatever the logits
    at the other positions are. *)
Theorem editing_loss_reads_last_position (lam : R) (kl : option KLDivLoss)
    (orig1 orig2 edit1 edit2 : list (list (list R))) (mediated_token_ids : list Z) :
  (forall b, last_position orig1 b = last_position orig2 b) ->
  (forall b, last_position edit1 b = last_position edit2 b) ->
  editing_loss lam kl orig1 edit1 mediated_token_ids
    = editing_loss lam kl orig2 edit2 mediated_token_ids.
Proof.
  intros Ho He. unfold editing_loss.
  rewrite (nll_loop_ext edit1 edit2 He).
  destruct (nll_loop (log_softmax3 edit2) 0 mediated_token_ids 0); simpl; [|reflexivity].
  destruct kl as [k|]; simpl; [|reflexivity].
  rewrite (last_positions_ext edit1 edit2 _ He).
  now rewrite (last_positions_ext orig1 orig2 _ Ho).
Qed.





Section OnDemo.

Import Loss.Demo.

Lemma editing_loss_reads_last_position_witness :
  editing_loss 1 (Some fit_kl) [[[5; 7]; [0; 0]]] [[[1; 2]; [3; 4]; [0; ln 3]]]
               mediated_token_ids
    = editing_loss 1 (Some fit_kl) logits_orig logits_edit mediated_token_ids.
Proof.
  apply editing_loss_reads_last_position.
  - intros [|b]; reflexivity.
  - intros [|b]; reflexivity.
Defined.

End OnDemo.

End LossFrame.

(** * Validation *)

Module ValidationFacts.

Import Training.

Section Fit.

Context {Tensor Batch Loss OptState : Type}.
Context `{!Torch Tensor Batch Loss OptState}.

Abbreviation state := (Training.state Tensor OptState).

Lemma val_batches_spec (epoch : nat) :
  forall (batches : list Batch) (val_loss : Loss) (st : state) (x : Loss) (st' : state),
    val_batches epoch batches val_loss st = Some (x, st') ->
    exists losses,
      mapM (editing_loss (training st) (model_training st) (heap st)) batches
        = Some losses /\
      x = foldl loss_add val_loss losses /\
      st' = mkState (heap st) (grads st) (requires_grad st) (training st)
                    (model_training st) (optimizer st)
                    (log st ++ map (fun _ => Forward epoch false) batches).
Proof.
  induction batches as [|batch rest IH]; intros val_loss st x st' Hrun; simpl in Hrun.
  - injection Hrun as <- <-. exists []. simpl. rewrite app_nil_r.
    repeat split. now destruct st.
  - destruct (editing_loss (training st) (model_training st) (heap st) batch)
      as [loss|] eqn:Hloss; simpl in Hrun; [|discriminate].
    apply IH in Hrun. destruct Hrun as (losses & Hmap & Hx & Hst). simpl in *.
    exists (loss :: losses). rewrite Hloss. simpl. rewrite Hmap. simpl.
    repeat split; [exact Hx|]. rewrite Hst. now rewrite <- app_assoc.
Qed.

(** X27. The validation loop of an epoch is an observer: when it returns, no
    parameter value, gradient, flag, mode or optimiser state has changed (only
    one loss evaluation per batch is recorded), every batch was scored on the
    same parameter values, and the sum handed on is the running sum of those
    losses in loader order. *)
Theorem validation_is_an_observer (epoch : nat) (batches : list Batch)
    (val_loss : Loss) (st : state) (x : Loss) (st' : state) :
  val_batches epoch batches val_loss st = Some (x, st') ->
  exists losses,
    mapM (editing_loss (training st) (model_training st) (heap st)) batches
      = Some losses /\
    x = foldl loss_add val_loss losses /\
    st' = mkState (heap st) (grads st) (requires_grad st) (training st)
                  (model_training st) (optimizer st)
                  (log st ++ map (fun _ => Forward epoch false) batches).
Proof. apply val_batches_spec. Qed.

End Fit.

Section OnDemo.

Import Training.Demo.

Example val_demo :
  val_batches 3 [tt; tt] 0 st0
    = Some (100, mkState (heap st0) (grads st0) (requires_grad st0) (training st0)
                   (model_training st0) (optimizer st0)
                   [Forward 3 false; Forward 3 false]).
Proof. vm_compute. reflexivity. Qed.

Lemma validation_is_an_observer_witness :
  exists losses,
    mapM (editing_loss (training st0) (model_training st0) (heap st0)) [tt; tt]
      = Some losses /\
    100 = foldl loss_add 0 losses /\
    mkState (heap st0) (grads st0) (requires_grad st0) (training st0)
            (model_training st0) (optimizer st0) [Forward 3 false; Forward 3 false]
    = mkState (heap st0) (grads st0) (requires_grad st0) (training st0)
              (model_training st0) (optimizer st0)
              (log st0 ++ map (fun _ => Forward 3 false) [tt; tt]).
Proof.
  exact (validation_is_an_observer 3 [tt; tt] 0 st0 100 _ val_demo).
Defined.

End OnDemo.

End ValidationFacts.
